(** * MAAS region controller: repositories, services and DHCP workflow dispatch

    A shallow embedding of the service-layer slice of MAAS:

    - [maasservicelayer/db/repositories/subnets.py]
      ([find_best_subnet_for_ip], [_pre_delete_checks], [delete_one],
      [delete_by_id]);
    - [maasservicelayer/services/_base.py]
      ([Service.from_cache_or_execute], [BaseService]);
    - [maasservicelayer/services/staticipaddress.py]
      ([StaticIPAddressService] and its hooks);
    - [maasapiserver/v3/db/vlans.py] ([VlansRepository.list]).

    SQL statements are read with their relational meaning over tables kept as
    lists of rows; Python exceptions are an explicit error type. *)

From stdpp Require Import base option list sorting strings pretty gmap.
From Stdlib Require Import ZArith Lia Ascii DecimalString DecimalZ DecimalPos.

Local Open Scope Z_scope.

(** ** Addresses and networks *)

Module Net.

(** [netaddr.IPAddress]: an address family (4 or 6) and the integer value. *)
Inductive IPAddress : Type :=
| IPv4 (value : Z)
| IPv6 (value : Z).

#[global] Instance IPAddress_eq_dec : EqDecision IPAddress.
Proof. solve_decision. Defined.

Definition version (a : IPAddress) : Z :=
  match a with IPv4 _ => 4 | IPv6 _ => 6 end.

Definition value (a : IPAddress) : Z :=
  match a with IPv4 v => v | IPv6 v => v end.

(** Width in bits of an address of the given family. *)
Definition width (a : IPAddress) : Z :=
  match a with IPv4 _ => 32 | IPv6 _ => 128 end.

(** [IPAddress.is_ipv4_mapped]: version 6 and [value >> 32 == 0xFFFF]. *)
Definition is_ipv4_mapped (a : IPAddress) : bool :=
  match a with
  | IPv4 _ => false
  | IPv6 v => Z.shiftr v 32 =? 0xFFFF
  end.

(** [IPAddress.ipv4]: an IPv4 address is returned as it is; an IPv6 address
    up to [0xFFFFFFFF] (IPv4-compatible) keeps its value, one up to
    [0xFFFFFFFFFFFF] (IPv4-mapped) loses [0xFFFF00000000]; any other IPv6
    address raises [AddrConversionError] ([None]). *)
Definition ipv4 (a : IPAddress) : option IPAddress :=
  match a with
  | IPv4 v => Some (IPv4 v)
  | IPv6 v =>
      if (0 <=? v) && (v <=? 0xFFFFFFFF) then Some (IPv4 v)
      else if (0xFFFFFFFF <=? v) && (v <=? 0xFFFFFFFFFFFF)
           then Some (IPv4 (v - 0xFFFF00000000))
           else None
  end.

(** A PostgreSQL [cidr] value: family, network address (host bits zero) and
    prefix length. *)
Record Network : Type := mkNetwork {
  network : IPAddress;
  prefixlen : Z
}.

(** PostgreSQL [masklen]. *)
Definition masklen (n : Network) : Z := prefixlen n.

(** The PostgreSQL operator [cidr >> inet] with a host address on the right:
    same family, the network's prefix strictly shorter than the host's full
    width, and the address's leading [prefixlen] bits equal to the
    network's. *)
Definition contains (n : Network) (a : IPAddress) : bool :=
  (version (network n) =? version a)
  && (0 <=? prefixlen n) && (prefixlen n <? width a)
  && (Z.shiftr (value a) (width a - prefixlen n)
      =? Z.shiftr (value (network n)) (width a - prefixlen n)).

(** Dotted quad to integer. *)
Definition quad (a b c d : Z) : Z :=
  Z.lor (Z.shiftl a 24) (Z.lor (Z.shiftl b 16) (Z.lor (Z.shiftl c 8) d)).

End Net.

(** ** Exceptions *)

(** The violation types of [maasservicelayer.exceptions.constants] that the
    modelled code names. *)
Inductive ViolationType : Type :=
| ETAG_PRECONDITION_VIOLATION_TYPE
| UNEXISTING_RESOURCE_VIOLATION_TYPE
| INVALID_ARGUMENT_VIOLATION_TYPE
| PRECONDITION_FAILED.

(** [BaseExceptionDetail(type=..., message=...)]. *)
Record BaseExceptionDetail : Type := mkDetail {
  detail_type : ViolationType;
  detail_message : string
}.

(** The exceptions the modelled code raises, each with its [details]. *)
Inductive Exception : Type :=
| NotFoundException (details : list BaseExceptionDetail)
| PreconditionFailedException (details : list BaseExceptionDetail)
| ValidationException (details : list BaseExceptionDetail)
| MultipleResultsFound
| ValueError
| IndexError
| AttributeError
| DatabaseError.

(** What a call does: return a value or raise. *)
Inductive Outcome (A : Type) : Type :=
| Return (a : A)
| Raise (e : Exception).
Arguments Return {A} a.
Arguments Raise {A} e.

#[global] Instance ViolationType_eq_dec : EqDecision ViolationType.
Proof. solve_decision. Defined.
#[global] Instance BaseExceptionDetail_eq_dec : EqDecision BaseExceptionDetail.
Proof. solve_decision. Defined.
#[global] Instance Exception_eq_dec : EqDecision Exception.
Proof. solve_decision. Defined.

(** ** Subnets repository *)

Module Subnets.
Import Net.

(** Rows of [maasserver_vlan], [maasserver_subnet] and [maasserver_iprange],
    with the columns the statements below read. *)
Record VlanRow : Type := mkVlan {
  vlan_pk : Z;
  dhcp_on : bool;
  fabric_id : Z
}.

Record SubnetRow : Type := mkSubnet {
  subnet_pk : Z;
  cidr : Network;
  vlan_id : Z
}.

Inductive IPRangeType : Type := dynamic | reserved.

Record IPRangeRow : Type := mkIPRange {
  iprange_pk : Z;
  range_type : IPRangeType;
  subnet_id : Z;
  start_ip : IPAddress;
  end_ip : IPAddress
}.

Record Database : Type := mkDatabase {
  SubnetTable : list SubnetRow;
  VlanTable : list VlanRow;
  IPRangeTable : list IPRangeRow
}.

#[global] Instance IPRangeType_eq_dec : EqDecision IPRangeType.
Proof. solve_decision. Defined.

(** [SubnetTable JOIN VlanTable ON VlanTable.id = SubnetTable.vlan_id]. *)
Definition subnet_join_vlan (db : Database) : list (SubnetRow * VlanRow) :=
  s ← SubnetTable db;
  v ← VlanTable db;
  if vlan_pk v =? vlan_id s then [(s, v)] else [].

(** [ORDER BY dhcp_on DESC, prefixlen DESC]: does row [r1] come no later than
    row [r2]? ([true] sorts before [false] under DESC.) *)
Definition order_by (r1 r2 : SubnetRow * VlanRow) : bool :=
  match dhcp_on (r1.2), dhcp_on (r2.2) with
  | true, false => true
  | false, true => false
  | _, _ => masklen (cidr (r2.1)) <=? masklen (cidr (r1.1))
  end.

Definition OrderBy (r1 r2 : SubnetRow * VlanRow) : Prop :=
  order_by r1 r2 = true.

#[global] Instance OrderBy_dec : RelDecision OrderBy.
Proof. intros r1 r2. unfold OrderBy. apply _. Defined.

(** The rows of the statement of [find_best_subnet_for_ip], in order. *)
Definition best_subnet_rows (db : Database) (ip_addr : IPAddress)
  : list (SubnetRow * VlanRow) :=
  merge_sort OrderBy
    (filter (λ r, contains (cidr (r.1)) ip_addr = true) (subnet_join_vlan db)).

(** The address the statement is run with: an IPv4-mapped IPv6 address is
    replaced by its IPv4 form ([None] when the conversion raises). *)
Definition lookup_address (ip : IPAddress) : option IPAddress :=
  if is_ipv4_mapped ip then ipv4 ip else Some ip.

(** [SubnetsRepository.find_best_subnet_for_ip]: [.first()] of the ordered
    rows, with the two extra columns dropped.  The outer option is [None]
    when the address conversion raises; the inner one is the method's
    [Subnet | None]. *)
Definition find_best_subnet_for_ip (db : Database) (ip : IPAddress)
  : option (option SubnetRow) :=
  ip_addr ← lookup_address ip;
  match best_subnet_rows db ip_addr with
  | [] => Some None
  | result :: _ => Some (Some (result.1))
  end.

(** [QuerySpec(where=Clause(condition))] on the subnet table: the condition
    as a predicate on a subnet row. *)
Record QuerySpec : Type := mkQuerySpec {
  where_ : SubnetRow → bool
}.

(** [Clause(eq(SubnetTable.c.id, id))]. *)
Definition with_id (id : Z) : QuerySpec :=
  {| where_ := λ s, subnet_pk s =? id |}.

(** The rows of the subquery of [_pre_delete_checks]:
    [SELECT subnet.* FROM subnet JOIN vlan ON subnet.vlan_id = vlan.id
     JOIN iprange ON subnet.id = iprange.subnet_id
     WHERE vlan.dhcp_on = true AND iprange.type = 'dynamic'].
    Its FROM clause is the explicit join, which names the subnet table
    itself: the subquery is a closed statement, and no column of it refers
    to the row of the statement that encloses it. *)
Definition dhcp_on_dynamic_rows (db : Database) : list SubnetRow :=
  s ← SubnetTable db;
  v ← VlanTable db;
  r ← IPRangeTable db;
  if (vlan_id s =? vlan_pk v) && (subnet_pk s =? subnet_id r)
     && bool_decide (dhcp_on v = true) && bool_decide (range_type r = dynamic)
  then [s] else [].

(** [....exists()]. *)
Definition vlan_dhcp_on_and_dynamic_ip_range (db : Database) : bool :=
  match dhcp_on_dynamic_rows db with [] => false | _ :: _ => true end.

(** [query.enrich_stmt(self.select_all_statement().where(exists))]:
    [SELECT * FROM subnet WHERE EXISTS (...) AND <query.where>]. *)
Definition pre_delete_stmt (db : Database) (query : QuerySpec)
  : list SubnetRow :=
  filter (λ s, vlan_dhcp_on_and_dynamic_ip_range db && where_ query s = true)
         (SubnetTable db).

Definition pre_delete_message : string :=
  "Cannot delete a subnet that is actively servicing a dynamic IP range. (Delete the dynamic range or disable DHCP first.)".

(** [SubnetsRepository._pre_delete_checks]: [one_or_none()] of the statement
    (which raises on more than one row); a row found raises the validation
    error of type [PRECONDITION_FAILED]. *)
Definition _pre_delete_checks (db : Database) (query : QuerySpec)
  : Outcome unit :=
  match pre_delete_stmt db query with
  | [] => Return ()
  | [subnet] =>
      Raise (ValidationException [mkDetail PRECONDITION_FAILED pre_delete_message])
  | _ :: _ :: _ => Raise MultipleResultsFound
  end.

(** Modelled from the spec: [BaseRepository.delete_one] of
    [maasservicelayer/db/repositories/base.py], which is not among the
    sources: the row selected by the query is removed from the table and
    returned; no row selected returns [None] and changes nothing. *)
Definition base_delete_one (db : Database) (query : QuerySpec)
  : Outcome (option SubnetRow) * Database :=
  match filter (λ s, where_ query s = true) (SubnetTable db) with
  | [] => (Return None, db)
  | [subnet] =>
      (Return (Some subnet),
       {| SubnetTable := filter (λ s, where_ query s ≠ true) (SubnetTable db);
          VlanTable := VlanTable db;
          IPRangeTable := IPRangeTable db |})
  | _ :: _ :: _ => (Raise MultipleResultsFound, db)
  end.

(** [SubnetsRepository.delete_one]: the checks, then the inherited delete. *)
Definition delete_one (db : Database) (query : QuerySpec)
  : Outcome (option SubnetRow) * Database :=
  match _pre_delete_checks db query with
  | Raise e => (Raise e, db)
  | Return _ => base_delete_one db query
  end.

(** [SubnetsRepository.delete_by_id]. *)
Definition delete_by_id (db : Database) (id : Z)
  : Outcome (option SubnetRow) * Database :=
  let query := with_id id in
  delete_one db query.

(** The condition of the invariant of the data model: the subnet itself lies
    on a VLAN with DHCP enabled and has a dynamic range. *)
Definition serves_dynamic_range (db : Database) (S : SubnetRow) : Prop :=
  ∃ v r, v ∈ VlanTable db ∧ r ∈ IPRangeTable db
         ∧ vlan_pk v = vlan_id S ∧ dhcp_on v = true
         ∧ subnet_id r = subnet_pk S ∧ range_type r = dynamic.

(** *** Facts about [find_best_subnet_for_ip] *)

Lemma is_ipv4_mapped_range (v : Z) :
  is_ipv4_mapped (IPv6 v) = true → 0xFFFF00000000 <= v <= 0xFFFFFFFFFFFF.
Proof.
  cbn. intros H%Z.eqb_eq. rewrite Z.shiftr_div_pow2 in H by lia.
  change (2 ^ 32) with 4294967296 in H.
  pose proof (Z.div_mod v 4294967296 ltac:(lia)) as Hdm.
  pose proof (Z.mod_pos_bound v 4294967296 ltac:(lia)). lia.
Qed.

(** The IPv4-mapped conversion never raises, and yields the low 32 bits. *)
Lemma lookup_address_total (ip : IPAddress) :
  lookup_address ip =
    Some (if is_ipv4_mapped ip then IPv4 (value ip - 0xFFFF00000000) else ip).
Proof.
  unfold lookup_address. destruct (is_ipv4_mapped ip) eqn:Hm; [|done].
  destruct ip as [v|v]; [done|].
  apply is_ipv4_mapped_range in Hm. cbn.
  destruct (v <=? 4294967295) eqn:H1; [apply Z.leb_le in H1; lia|].
  rewrite andb_false_r.
  destruct (4294967295 <=? v) eqn:H2; [|apply Z.leb_gt in H2; lia].
  destruct (v <=? 281474976710655) eqn:H3; [|apply Z.leb_gt in H3; lia].
  done.
Qed.

#[global] Instance OrderBy_total : Total OrderBy.
Proof.
  intros [s1 v1] [s2 v2]. unfold OrderBy, order_by. cbn.
  destruct (dhcp_on v1), (dhcp_on v2); auto; rewrite !Z.leb_le; lia.
Qed.

#[global] Instance OrderBy_trans : Transitive OrderBy.
Proof.
  intros [s1 v1] [s2 v2] [s3 v3]. unfold OrderBy, order_by. cbn.
  destruct (dhcp_on v1), (dhcp_on v2), (dhcp_on v3);
    rewrite ?Z.leb_le; try done; lia.
Qed.

Lemma elem_of_subnet_join_vlan (db : Database) (s : SubnetRow) (v : VlanRow) :
  (s, v) ∈ subnet_join_vlan db ↔
  s ∈ SubnetTable db ∧ v ∈ VlanTable db ∧ vlan_pk v = vlan_id s.
Proof.
  unfold subnet_join_vlan. rewrite list_elem_of_bind. split.
  - intros (s' & Hin & Hs'). apply list_elem_of_bind in Hin as (v' & Hin & Hv').
    destruct (vlan_pk v' =? vlan_id s') eqn:E; [|by apply elem_of_nil in Hin].
    apply list_elem_of_singleton in Hin. simplify_eq. by apply Z.eqb_eq in E.
  - intros (Hs & Hv & E). exists s. split; [|done].
    apply list_elem_of_bind. exists v. split; [|done].
    apply Z.eqb_eq in E. rewrite E. by apply list_elem_of_singleton.
Qed.

Lemma elem_of_best_subnet_rows db a (s : SubnetRow) (v : VlanRow) :
  (s, v) ∈ best_subnet_rows db a ↔
  s ∈ SubnetTable db ∧ v ∈ VlanTable db ∧ vlan_pk v = vlan_id s
  ∧ contains (cidr s) a = true.
Proof.
  unfold best_subnet_rows. rewrite merge_sort_Permutation.
  rewrite list_elem_of_filter, elem_of_subnet_join_vlan. cbn. tauto.
Qed.

(** The first row of the ordered result comes no later than any row. *)
Lemma best_subnet_rows_head db a r rows :
  best_subnet_rows db a = r :: rows →
  ∀ r', r' ∈ best_subnet_rows db a → OrderBy r r'.
Proof.
  intros E r' Hin.
  pose proof (StronglySorted_merge_sort OrderBy
    (filter (λ r, contains (cidr (r.1)) a = true) (subnet_join_vlan db))) as HS.
  fold (best_subnet_rows db a) in HS. rewrite E in HS, Hin.
  apply StronglySorted_inv in HS as [_ Hall].
  apply elem_of_cons in Hin as [->|Hin].
  - destruct (total OrderBy r r); done.
  - rewrite Forall_forall in Hall. by apply Hall.
Qed.

(** The network holds the address, the network of the address itself
    included (PostgreSQL's [>>=]): same family, a prefix of at most the full
    width, and the leading [prefixlen] bits equal. *)
Definition covers_address (n : Network) (a : IPAddress) : bool :=
  (version (network n) =? version a)
  && (0 <=? prefixlen n) && (prefixlen n <=? width a)
  && (Z.shiftr (value a) (width a - prefixlen n)
      =? Z.shiftr (value (network n)) (width a - prefixlen n)).

(** [>>] is [>>=] less the networks as long as the address: a host network
    (/32, or /128) is never a candidate. *)
Lemma contains_strict (n : Network) (a : IPAddress) :
  contains n a = true ↔ covers_address n a = true ∧ prefixlen n < width a.
Proof.
  unfold contains, covers_address.
  rewrite !andb_true_iff, !Z.eqb_eq, !Z.leb_le, Z.ltb_lt. lia.
Qed.

(** C1 (as the code has it). [find_best_subnet_for_ip] always returns: it
    runs its statement with the address mapped down to IPv4 when it is
    IPv4-mapped IPv6.  Its candidates are the subnets, joined to their VLAN,
    whose CIDR strictly contains the address ([>>]): those that hold it and
    whose prefix is shorter than the address's full width, so that a host
    subnet (/32, /128) is never one.  When it returns a subnet, that subnet
    is a candidate and is first under (dhcp_on descending, prefix length
    descending) among the candidates: none on a DHCP-enabled VLAN is passed
    over for one on a DHCP-disabled VLAN, whatever the prefix lengths, and
    among equal dhcp_on none has a longer prefix.  It returns none exactly
    when there is no candidate. *)
Theorem find_best_subnet_for_ip_spec (db : Database) (ip : IPAddress) :
  ∃ ip_addr result,
    ip_addr = (if is_ipv4_mapped ip
               then IPv4 (value ip - 0xFFFF00000000) else ip)
    ∧ find_best_subnet_for_ip db ip = Some result
    ∧ (∀ n, contains n ip_addr = true ↔
            covers_address n ip_addr = true ∧ prefixlen n < width ip_addr)
    ∧ match result with
      | None =>
          ∀ s v, s ∈ SubnetTable db → v ∈ VlanTable db →
                 vlan_pk v = vlan_id s → contains (cidr s) ip_addr = false
      | Some best =>
          best ∈ SubnetTable db
          ∧ contains (cidr best) ip_addr = true
          ∧ ∃ best_vlan,
              best_vlan ∈ VlanTable db ∧ vlan_pk best_vlan = vlan_id best
              ∧ ∀ s v, s ∈ SubnetTable db → v ∈ VlanTable db →
                       vlan_pk v = vlan_id s →
                       contains (cidr s) ip_addr = true →
                       (dhcp_on v = true → dhcp_on best_vlan = true)
                       ∧ (dhcp_on v = dhcp_on best_vlan →
                          prefixlen (cidr s) <= prefixlen (cidr best))
      end.
Proof.
  set (a := if is_ipv4_mapped ip then IPv4 (value ip - 0xFFFF00000000) else ip).
  exists a. unfold find_best_subnet_for_ip.
  rewrite lookup_address_total. fold a. cbn [mbind option_bind].
  destruct (best_subnet_rows db a) as [|[best bv] rows] eqn:E;
    eexists; (split; [reflexivity|]); (split; [reflexivity|]);
    (split; [intros n; apply contains_strict|]).
  - intros s v Hs Hv Hj.
    destruct (contains (cidr s) a) eqn:Hc; [|done].
    assert ((s, v) ∈ best_subnet_rows db a) as Hin
      by (by apply elem_of_best_subnet_rows).
    rewrite E in Hin. by apply elem_of_nil in Hin.
  - cbn [fst].
    assert ((best, bv) ∈ best_subnet_rows db a) as Hin
      by (rewrite E; left).
    apply elem_of_best_subnet_rows in Hin as (Hb & Hbv & Hj & Hc).
    split; [done|]. split; [done|]. exists bv. split; [done|]. split; [done|].
    intros s v Hs Hv Hjs Hcs.
    assert (OrderBy (best, bv) (s, v)) as Ho.
    { eapply best_subnet_rows_head; [done|].
      by apply elem_of_best_subnet_rows. }
    unfold OrderBy, order_by, masklen in Ho. cbn in Ho.
    destruct (dhcp_on bv), (dhcp_on v); try done;
      apply Z.leb_le in Ho; (split; [done|intros _; exact Ho]).
Qed.

(** C1, as stated, fails on host subnets.  The CIDR 10.0.0.5/32 holds the
    address 10.0.0.5, yet with that subnet alone no subnet is returned; and
    beside 10.0.0.0/24, both on VLANs with DHCP on, the /24 is returned
    although the /32 has the longer prefix. *)
Lemma host_subnet_is_never_found :
  let host := mkSubnet 2 (mkNetwork (IPv4 (quad 10 0 0 5)) 32) 20 in
  let wide := mkSubnet 1 (mkNetwork (IPv4 (quad 10 0 0 0)) 24) 10 in
  let vlans := [ mkVlan 10 true 0; mkVlan 20 true 0 ] in
  covers_address (cidr host) (IPv4 (quad 10 0 0 5)) = true
  ∧ find_best_subnet_for_ip
      {| SubnetTable := [host]; VlanTable := vlans; IPRangeTable := [] |}
      (IPv4 (quad 10 0 0 5)) = Some None
  ∧ find_best_subnet_for_ip
      {| SubnetTable := [wide; host]; VlanTable := vlans; IPRangeTable := [] |}
      (IPv4 (quad 10 0 0 5)) = Some (Some wide)
  ∧ prefixlen (cidr wide) < prefixlen (cidr host).
Proof. by vm_compute. Qed.

(** The example of the specification: A = 10.0.0.0/24 with DHCP off,
    B = 10.0.0.0/28 with DHCP on; 10.0.0.5 is served by B, also when it is
    given as the IPv4-mapped address ::ffff:10.0.0.5. *)
Definition example_db : Database :=
  {| SubnetTable :=
       [ mkSubnet 1 (mkNetwork (IPv4 (quad 10 0 0 0)) 24) 10;
         mkSubnet 2 (mkNetwork (IPv4 (quad 10 0 0 0)) 28) 20 ];
     VlanTable := [ mkVlan 10 false 0; mkVlan 20 true 0 ];
     IPRangeTable := [] |}.

Example find_best_subnet_for_ip_example :
  subnet_pk <$> (find_best_subnet_for_ip example_db (IPv4 (quad 10 0 0 5)) ≫= id)
    = Some 2
  ∧ subnet_pk <$>
      (find_best_subnet_for_ip example_db
         (IPv6 (0xFFFF00000000 + quad 10 0 0 5)) ≫= id) = Some 2
  ∧ find_best_subnet_for_ip example_db (IPv4 (quad 10 0 1 5)) = Some None.
Proof. by vm_compute. Qed.

(** A longer prefix wins only among equal dhcp_on: with DHCP on for both
    VLANs the /28 is still chosen, and with the /24 alone on DHCP it is the
    /24. *)
Example find_best_subnet_for_ip_dhcp_first :
  subnet_pk <$>
    (find_best_subnet_for_ip
       {| SubnetTable :=
            [ mkSubnet 1 (mkNetwork (IPv4 (quad 10 0 0 0)) 24) 10;
              mkSubnet 2 (mkNetwork (IPv4 (quad 10 0 0 0)) 28) 20 ];
          VlanTable := [ mkVlan 10 true 0; mkVlan 20 false 0 ];
          IPRangeTable := [] |} (IPv4 (quad 10 0 0 5)) ≫= id) = Some 1.
Proof. by vm_compute. Qed.

(** *** Facts about the delete guard *)

Lemma elem_of_dhcp_on_dynamic_rows (db : Database) (s : SubnetRow) :
  s ∈ dhcp_on_dynamic_rows db ↔ s ∈ SubnetTable db ∧ serves_dynamic_range db s.
Proof.
  unfold dhcp_on_dynamic_rows, serves_dynamic_range.
  rewrite list_elem_of_bind. split.
  - intros (s' & Hin & Hs).
    apply list_elem_of_bind in Hin as (v & Hin & Hv).
    apply list_elem_of_bind in Hin as (r & Hin & Hr).
    destruct (_ && _) eqn:E in Hin; [|by apply elem_of_nil in Hin].
    apply list_elem_of_singleton in Hin as ->.
    repeat (apply andb_prop in E as [E ?]).
    repeat match goal with
           | H : bool_decide _ = true |- _ => apply bool_decide_eq_true in H
           | H : (_ =? _) = true |- _ => apply Z.eqb_eq in H
           end.
    split; [done|]. exists v, r. by repeat split.
  - intros (Hs & v & r & Hv & Hr & Hj & Hd & Hi & Ht). exists s. split; [|done].
    apply list_elem_of_bind. exists v. split; [|done].
    apply list_elem_of_bind. exists r. split; [|done].
    rewrite <- Hj, <- Hi, !Z.eqb_refl, !bool_decide_eq_true_2 by done.
    by apply list_elem_of_singleton.
Qed.

(** The EXISTS of the guard holds as soon as any subnet of the table serves
    a dynamic range, whichever subnet the query selects. *)
Lemma vlan_dhcp_on_and_dynamic_ip_range_true (db : Database) :
  vlan_dhcp_on_and_dynamic_ip_range db = true ↔
  ∃ s, s ∈ SubnetTable db ∧ serves_dynamic_range db s.
Proof.
  unfold vlan_dhcp_on_and_dynamic_ip_range.
  destruct (dhcp_on_dynamic_rows db) as [|s0 rows] eqn:E.
  - split; [done|]. intros (s & Hs). apply elem_of_dhcp_on_dynamic_rows in Hs.
    rewrite E in Hs. by apply elem_of_nil in Hs.
  - split; [|done]. intros _. exists s0. apply elem_of_dhcp_on_dynamic_rows.
    rewrite E. left.
Qed.

(** With no subnet at all serving a dynamic range, the guard lets every
    delete through to the inherited delete. *)
Lemma delete_one_no_dynamic_range (db : Database) (query : QuerySpec) :
  vlan_dhcp_on_and_dynamic_ip_range db = false →
  delete_one db query = base_delete_one db query.
Proof.
  intros Hex. unfold delete_one, _pre_delete_checks, pre_delete_stmt.
  rewrite Hex. cbn.
  replace (filter _ (SubnetTable db)) with (@nil SubnetRow); [done|].
  symmetry. induction (SubnetTable db) as [|s l IH]; [done|].
  rewrite filter_cons_False by done. exact IH.
Qed.

(** A subnet that itself serves a dynamic range is not deleted: the call
    raises the precondition failure and the tables are as before. *)
Lemma delete_by_id_rejects_serving_subnet (db : Database) (S : SubnetRow) :
  filter (λ s, where_ (with_id (subnet_pk S)) s = true) (SubnetTable db) = [S] →
  serves_dynamic_range db S →
  delete_by_id db (subnet_pk S)
  = (Raise (ValidationException [mkDetail PRECONDITION_FAILED pre_delete_message]),
     db).
Proof.
  intros Hone Hserves.
  assert (S ∈ SubnetTable db) as HS.
  { assert (S ∈ [S]) as Hin by left. rewrite <- Hone in Hin.
    by apply list_elem_of_filter in Hin as [_ ?]. }
  assert (vlan_dhcp_on_and_dynamic_ip_range db = true) as Hex
    by (apply vlan_dhcp_on_and_dynamic_ip_range_true; eauto).
  unfold delete_by_id, delete_one, _pre_delete_checks, pre_delete_stmt.
  rewrite Hex. cbn [andb].
  by rewrite Hone.
Qed.

(** Two subnets: subnet 1 on VLAN 10 (DHCP on) with a dynamic range, and
    subnet 2 on VLAN 20 (DHCP off) with no range at all. *)
Definition guard_db : Database :=
  {| SubnetTable :=
       [ mkSubnet 1 (mkNetwork (IPv4 (quad 10 0 0 0)) 24) 10;
         mkSubnet 2 (mkNetwork (IPv4 (quad 10 0 1 0)) 24) 20 ];
     VlanTable := [ mkVlan 10 true 0; mkVlan 20 false 0 ];
     IPRangeTable :=
       [ mkIPRange 1 dynamic 1 (IPv4 (quad 10 0 0 10)) (IPv4 (quad 10 0 0 20)) ] |}.

(** C2. On [guard_db], subnet 2 has no dynamic range and its VLAN has DHCP
    off, yet [delete_by_id 2] raises the precondition failure and deletes
    nothing: the EXISTS of [_pre_delete_checks] is satisfied by subnet 1.
    With subnet 1's range gone the same delete goes through. *)
Theorem delete_by_id_rejects_unrelated_subnet :
  let S := mkSubnet 2 (mkNetwork (IPv4 (quad 10 0 1 0)) 24) 20 in
  S ∈ SubnetTable guard_db
  ∧ ¬ serves_dynamic_range guard_db S
  ∧ delete_by_id guard_db 2
    = (Raise (ValidationException
                [mkDetail PRECONDITION_FAILED pre_delete_message]),
       guard_db)
  ∧ fst (delete_by_id
           {| SubnetTable := SubnetTable guard_db;
              VlanTable := VlanTable guard_db;
              IPRangeTable := [] |} 2) = Return (Some S).
Proof.
  cbn zeta. split; [right; left|]. split; [|split; reflexivity].
  intros (v & r & _ & Hr & _ & _ & Hi & _).
  apply list_elem_of_singleton in Hr as ->. cbn in Hi. lia.
Qed.

End Subnets.

(** ** Base service *)

Module BaseService.

Section base_service.

(** [T] is the model of the service, [Resource] the
    [CreateOrUpdateResource] payload, [Query] the [QuerySpec], and [Store]
    everything the repository and the hooks of the service act on. *)
Context {T Resource Query Store : Type}.

(** [MaasBaseModel.id] and [MaasBaseModel.etag()]. *)
Variable model_id : T → Z.
Variable etag : T → string.

(** The methods of [BaseRepository] that [BaseService] calls.  The class is
    not among the sources; its methods are taken as they come. *)
Record Repository : Type := mkRepository {
  repo_get_one : Query → Store → Outcome (option T) * Store;
  repo_get_by_id : Z → Store → Outcome (option T) * Store;
  repo_create : Resource → Store → Outcome T * Store;
  repo_update_by_id : Z → Resource → Store → Outcome T * Store;
  repo_delete_by_id : Z → Store → Outcome (option T) * Store
}.

(** The hooks a concrete service overrides. *)
Record Hooks : Type := mkHooks {
  post_create_hook : T → Store → Outcome unit * Store;
  post_update_hook : T → T → Store → Outcome unit * Store;
  pre_delete_hook : T → Store → Outcome unit * Store;
  post_delete_hook : T → Store → Outcome unit * Store
}.

(** The hooks of [BaseService] itself: each returns [None]. *)
Definition default_hooks : Hooks :=
  {| post_create_hook := λ _ s, (Return (), s);
     post_update_hook := λ _ _ s, (Return (), s);
     pre_delete_hook := λ _ s, (Return (), s);
     post_delete_hook := λ _ s, (Return (), s) |}.

(** What a service method does to the outside, in order: the calls it makes
    on its repository and the hooks it runs. *)
Inductive Event : Type :=
| RepoGetOne (query : Query)
| RepoGetById (id : Z)
| RepoCreate (resource : Resource)
| RepoUpdateById (id : Z) (resource : Resource)
| RepoCreateOrUpdate (resource : Resource)
| RepoDeleteById (id : Z)
| PostCreateHook (created : T)
| PostUpdateHook (old_resource updated_resource : T)
| PreDeleteHook (resource_to_be_deleted : T)
| PostDeleteHook (resource : T).

(** Repository reads are the only events that are neither a write nor a
    hook. *)
Definition is_read (ev : Event) : bool :=
  match ev with
  | RepoGetOne _ | RepoGetById _ => true
  | _ => false
  end.

Record World : Type := mkWorld {
  store : Store;
  trace : list Event
}.

(** Service methods: state passing over the world, with exceptions. *)
Definition M (A : Type) : Type := World → Outcome A * World.

Definition ret {A} (a : A) : M A := λ w, (Return a, w).

Definition raise {A} (e : Exception) : M A := λ w, (Raise e, w).

Definition bind {A B} (m : M A) (k : A → M B) : M B :=
  λ w, match m w with
       | (Return a, w') => k a w'
       | (Raise e, w') => (Raise e, w')
       end.

(** A call out of the service: recorded, then run on the store. *)
Definition call {A} (ev : Event) (op : Store → Outcome A * Store) : M A :=
  λ w, let '(r, s') := op (store w) in
       (r, {| store := s'; trace := trace w ++ [ev] |}).

(** Code of the service itself acting on the store: not recorded. *)
Definition on_store {A} (op : Store → Outcome A * Store) : M A :=
  λ w, let '(r, s') := op (store w) in
       (r, {| store := s'; trace := trace w |}).

Notation "'let*' x ':=' m 'in' k" := (bind m (λ x, k))
  (at level 10, x name, m at level 100, k at level 200, only parsing).

Variable repository : Repository.
Variable hooks : Hooks.

Definition etag_message (model : T) (etag_if_match : string) : string :=
  "The resource etag '" +:+ etag model +:+ "' did not match '"
    +:+ etag_if_match +:+ "'.".

(** [BaseService.etag_check]. *)
Definition etag_check (model : T) (etag_if_match : option string) : M unit :=
  match etag_if_match with
  | Some expected =>
      if bool_decide (etag model ≠ expected)
      then raise (PreconditionFailedException
                    [mkDetail ETAG_PRECONDITION_VIOLATION_TYPE
                              (etag_message model expected)])
      else ret ()
  | None => ret ()
  end.

Definition get_one (query : Query) : M (option T) :=
  call (RepoGetOne query) (repo_get_one repository query).

Definition get_by_id (id : Z) : M (option T) :=
  call (RepoGetById id) (repo_get_by_id repository id).

(** [BaseService.create]. *)
Definition create (resource : Resource) : M T :=
  let* created_resource :=
    call (RepoCreate resource) (repo_create repository resource) in
  let* _ := call (PostCreateHook created_resource)
                 (post_create_hook hooks created_resource) in
  ret created_resource.

Definition not_found : Exception :=
  NotFoundException
    [mkDetail UNEXISTING_RESOURCE_VIOLATION_TYPE
              "Resource with such identifiers does not exist."].

(** [BaseService._update_resource]. *)
Definition _update_resource (existing_resource : option T)
    (resource : Resource) (etag_if_match : option string) : M T :=
  match existing_resource with
  | None => raise not_found
  | Some existing =>
      let* _ := etag_check existing etag_if_match in
      let* updated_resource :=
        call (RepoUpdateById (model_id existing) resource)
             (repo_update_by_id repository (model_id existing) resource) in
      let* _ := call (PostUpdateHook existing updated_resource)
                     (post_update_hook hooks existing updated_resource) in
      ret updated_resource
  end.

(** [BaseService.update_one] and [BaseService.update_by_id]. *)
Definition update_one (query : Query) (resource : Resource)
    (etag_if_match : option string) : M T :=
  let* existing_resource := get_one query in
  _update_resource existing_resource resource etag_if_match.

Definition update_by_id (id : Z) (resource : Resource)
    (etag_if_match : option string) : M T :=
  let* existing_resource := get_by_id id in
  _update_resource existing_resource resource etag_if_match.

(** [BaseService._delete_resource]. *)
Definition _delete_resource (resource : option T)
    (etag_if_match : option string) : M (option T) :=
  match resource with
  | None => ret None
  | Some res =>
      let* _ := etag_check res etag_if_match in
      let* _ := call (PreDeleteHook res) (pre_delete_hook hooks res) in
      let* deleted_resource :=
        call (RepoDeleteById (model_id res))
             (repo_delete_by_id repository (model_id res)) in
      match deleted_resource with
      | Some deleted =>
          let* _ := call (PostDeleteHook deleted)
                         (post_delete_hook hooks deleted) in
          ret deleted_resource
      | None => ret deleted_resource
      end
  end.

(** [BaseService.delete_one] and [BaseService.delete_by_id]. *)
Definition delete_one (query : Query) (etag_if_match : option string)
  : M (option T) :=
  let* resource := get_one query in
  _delete_resource resource etag_if_match.

Definition delete_by_id (id : Z) (etag_if_match : option string)
  : M (option T) :=
  let* resource := get_by_id id in
  _delete_resource resource etag_if_match.

(** *** Facts about the etag check and absent resources *)

(** The world after a read that left the store as [s]. *)
Definition after_read (w : World) (ev : Event) (s : Store) : World :=
  {| store := s; trace := trace w ++ [ev] |}.

(** What [_update_resource] and [_delete_resource] do once the etag check
    has passed. *)
Definition update_checked (existing : T) (resource : Resource) : M T :=
  let* updated_resource :=
    call (RepoUpdateById (model_id existing) resource)
         (repo_update_by_id repository (model_id existing) resource) in
  let* _ := call (PostUpdateHook existing updated_resource)
                 (post_update_hook hooks existing updated_resource) in
  ret updated_resource.

Definition delete_checked (res : T) : M (option T) :=
  let* _ := call (PreDeleteHook res) (pre_delete_hook hooks res) in
  let* deleted_resource :=
    call (RepoDeleteById (model_id res))
         (repo_delete_by_id repository (model_id res)) in
  match deleted_resource with
  | Some deleted =>
      let* _ := call (PostDeleteHook deleted)
                     (post_delete_hook hooks deleted) in
      ret deleted_resource
  | None => ret deleted_resource
  end.

Definition etag_mismatch (model : T) (expected : string) : Exception :=
  PreconditionFailedException
    [mkDetail ETAG_PRECONDITION_VIOLATION_TYPE (etag_message model expected)].

Lemma etag_check_stale (model : T) (stale : string) (w : World) :
  stale ≠ etag model →
  etag_check model (Some stale) w = (Raise (etag_mismatch model stale), w).
Proof.
  intros Hne. unfold etag_check.
  rewrite bool_decide_eq_true_2 by congruence. done.
Qed.

Lemma etag_check_pass (model : T) (etag_if_match : option string) (w : World) :
  etag_if_match = None ∨ etag_if_match = Some (etag model) →
  etag_check model etag_if_match w = (Return (), w).
Proof.
  intros [-> | ->]; unfold etag_check; [done|].
  rewrite bool_decide_eq_false_2 by (intros H; by apply H). done.
Qed.

Lemma bind_run {A B} (m : M A) (k : A → M B) (w w' : World) (a : A) :
  m w = (Return a, w') → bind m k w = k a w'.
Proof. intros H. unfold bind. by rewrite H. Qed.

Lemma bind_raise {A B} (m : M A) (k : A → M B) (w w' : World) (e : Exception) :
  m w = (Raise e, w') → bind m k w = (Raise e, w').
Proof. intros H. unfold bind. by rewrite H. Qed.

Lemma get_by_id_run (id : Z) (w : World) (found : option T) (s : Store) :
  repo_get_by_id repository id (store w) = (Return found, s) →
  get_by_id id w = (Return found, after_read w (RepoGetById id) s).
Proof. intros H. unfold get_by_id, call. by rewrite H. Qed.

Lemma get_one_run (query : Query) (w : World) (found : option T) (s : Store) :
  repo_get_one repository query (store w) = (Return found, s) →
  get_one query w = (Return found, after_read w (RepoGetOne query) s).
Proof. intros H. unfold get_one, call. by rewrite H. Qed.

Lemma update_resource_checked (existing : T) (resource : Resource)
    (etag_if_match : option string) (w : World) :
  etag_if_match = None ∨ etag_if_match = Some (etag existing) →
  _update_resource (Some existing) resource etag_if_match w
  = update_checked existing resource w.
Proof.
  intros H. unfold _update_resource, bind at 1.
  by rewrite etag_check_pass.
Qed.

Lemma delete_resource_checked (res : T) (etag_if_match : option string)
    (w : World) :
  etag_if_match = None ∨ etag_if_match = Some (etag res) →
  _delete_resource (Some res) etag_if_match w = delete_checked res w.
Proof.
  intros H. unfold _delete_resource, bind at 1.
  by rewrite etag_check_pass.
Qed.

(** C6. On an existing resource, each of [update_by_id], [update_one],
    [delete_by_id] and [delete_one] given an [etag_if_match] that differs
    from the resource's etag raises the precondition failure, with the read
    as the only call made: no write on the repository and no hook.  Given no
    [etag_if_match], or the current etag, the check returns and the
    operation goes on to its write and hooks, whatever the payload. *)
Theorem etag_check_guards_mutations (w : World) (id : Z) (query : Query)
    (existing : T) (s_id s_q : Store) (resource : Resource)
    (etag_if_match : option string) :
  repo_get_by_id repository id (store w) = (Return (Some existing), s_id) →
  repo_get_one repository query (store w) = (Return (Some existing), s_q) →
  let w_id := after_read w (RepoGetById id) s_id in
  let w_q := after_read w (RepoGetOne query) s_q in
  match etag_if_match with
  | Some expected =>
      if bool_decide (expected = etag existing) then
        etag_check existing etag_if_match w_id = (Return (), w_id)
        ∧ update_by_id id resource etag_if_match w
          = update_checked existing resource w_id
        ∧ update_one query resource etag_if_match w
          = update_checked existing resource w_q
        ∧ delete_by_id id etag_if_match w = delete_checked existing w_id
        ∧ delete_one query etag_if_match w = delete_checked existing w_q
      else
        update_by_id id resource etag_if_match w
          = (Raise (etag_mismatch existing expected), w_id)
        ∧ update_one query resource etag_if_match w
          = (Raise (etag_mismatch existing expected), w_q)
        ∧ delete_by_id id etag_if_match w
          = (Raise (etag_mismatch existing expected), w_id)
        ∧ delete_one query etag_if_match w
          = (Raise (etag_mismatch existing expected), w_q)
  | None =>
      etag_check existing etag_if_match w_id = (Return (), w_id)
      ∧ update_by_id id resource etag_if_match w
        = update_checked existing resource w_id
      ∧ update_one query resource etag_if_match w
        = update_checked existing resource w_q
      ∧ delete_by_id id etag_if_match w = delete_checked existing w_id
      ∧ delete_one query etag_if_match w = delete_checked existing w_q
  end.
Proof.
  intros Hid Hq w_id w_q.
  apply get_by_id_run in Hid. apply get_one_run in Hq.
  fold w_id in Hid. fold w_q in Hq.
  unfold update_by_id, update_one, delete_by_id, delete_one.
  assert (∀ e, e = None ∨ e = Some (etag existing) →
    etag_check existing e w_id = (Return (), w_id)
    ∧ bind (get_by_id id) (λ x, _update_resource x resource e) w
      = update_checked existing resource w_id
    ∧ bind (get_one query) (λ x, _update_resource x resource e) w
      = update_checked existing resource w_q
    ∧ bind (get_by_id id) (λ x, _delete_resource x e) w
      = delete_checked existing w_id
    ∧ bind (get_one query) (λ x, _delete_resource x e) w
      = delete_checked existing w_q) as Hpass.
  { intros e He. split; [by apply etag_check_pass|].
    rewrite !(bind_run _ _ _ _ _ Hid), !(bind_run _ _ _ _ _ Hq).
    by rewrite !update_resource_checked, !delete_resource_checked. }
  destruct etag_if_match as [expected|]; [|apply Hpass; by left].
  case_bool_decide as He; [apply Hpass; right; by subst|].
  rewrite !(bind_run _ _ _ _ _ Hid), !(bind_run _ _ _ _ _ Hq).
  unfold _update_resource, _delete_resource.
  by rewrite !(bind_raise _ _ _ _ _ (etag_check_stale _ _ _ He)).
Qed.

(** In the precondition-failed case nothing but the read is recorded. *)
Lemma after_read_only_reads (w : World) (ev : Event) (s : Store) :
  is_read ev = true →
  Forall (λ e, is_read e = true) (trace w) →
  Forall (λ e, is_read e = true) (trace (after_read w ev s)).
Proof. intros He Hw. cbn. apply Forall_app. by repeat constructor. Qed.

(** C8 (as the code has it). When the fetch finds nothing, [update_by_id]
    and [update_one] raise the not-found error with the read as the only
    call made, while [delete_by_id] and [delete_one] return [None] without
    an error, again with the read as the only call made.  When the fetch
    finds the resource and the etag check passes, update calls the
    repository's [update_by_id] with the resource's id and the payload and
    then [post_update_hook] with the old and the updated resource. *)
Theorem update_delete_absent_or_present (w : World) (id : Z) (query : Query)
    (fetched : option T) (s_id s_q : Store) (resource : Resource)
    (etag_if_match : option string) :
  repo_get_by_id repository id (store w) = (Return fetched, s_id) →
  repo_get_one repository query (store w) = (Return fetched, s_q) →
  let w_id := after_read w (RepoGetById id) s_id in
  let w_q := after_read w (RepoGetOne query) s_q in
  match fetched with
  | None =>
      update_by_id id resource etag_if_match w = (Raise not_found, w_id)
      ∧ update_one query resource etag_if_match w = (Raise not_found, w_q)
      ∧ delete_by_id id etag_if_match w = (Return None, w_id)
      ∧ delete_one query etag_if_match w = (Return None, w_q)
  | Some old =>
      etag_if_match = None ∨ etag_if_match = Some (etag old) →
      ∀ (new : T) (s2 s3 s2' s3' : Store),
        repo_update_by_id repository (model_id old) resource s_id
          = (Return new, s2) →
        post_update_hook hooks old new s2 = (Return (), s3) →
        repo_update_by_id repository (model_id old) resource s_q
          = (Return new, s2') →
        post_update_hook hooks old new s2' = (Return (), s3') →
        update_by_id id resource etag_if_match w
          = (Return new,
             {| store := s3;
                trace := trace w ++ [RepoGetById id;
                                     RepoUpdateById (model_id old) resource;
                                     PostUpdateHook old new] |})
        ∧ update_one query resource etag_if_match w
          = (Return new,
             {| store := s3';
                trace := trace w ++ [RepoGetOne query;
                                     RepoUpdateById (model_id old) resource;
                                     PostUpdateHook old new] |})
  end.
Proof.
  intros Hid Hq w_id w_q.
  apply get_by_id_run in Hid. apply get_one_run in Hq.
  fold w_id in Hid. fold w_q in Hq.
  unfold update_by_id, update_one, delete_by_id, delete_one.
  rewrite !(bind_run _ _ _ _ _ Hid), !(bind_run _ _ _ _ _ Hq).
  destruct fetched as [old|]; [|done].
  intros Hetag new s2 s3 s2' s3' Hu Hh Hu' Hh'.
  rewrite !update_resource_checked by done.
  unfold update_checked, bind, call. cbn [store trace w_id w_q after_read].
  rewrite Hu, Hu'. cbn [store trace]. rewrite Hh, Hh'. cbn [store trace].
  by rewrite <- !app_assoc.
Qed.

End base_service.

End BaseService.

(** ** Workflow dispatch *)

Module Temporal.

(** Modelled from the spec: [ConfigureDHCPParam] of
    [maascommon/workflows/dhcp.py], which is not among the sources: the ids
    of the affected subnets, static IP addresses and IP ranges, each empty
    when not given. *)
Record ConfigureDHCPParam : Type := mkConfigureDHCPParam {
  subnet_ids : list Z;
  static_ip_addr_ids : list Z;
  ip_range_ids : list Z
}.

#[global] Instance ConfigureDHCPParam_eq_dec : EqDecision ConfigureDHCPParam.
Proof. solve_decision. Defined.

(** Modelled from the spec: the name under which the DHCP workflow is
    registered (the constant is not among the sources). *)
Definition CONFIGURE_DHCP_WORKFLOW_NAME : string := "configure-dhcp".

(** Modelled from the spec: [merge_configure_dhcp_param], not among the
    sources: the union, field by field, of the ids of the two parameters. *)
Definition merge_configure_dhcp_param (old new : ConfigureDHCPParam)
  : ConfigureDHCPParam :=
  {| subnet_ids := remove_dups (subnet_ids old ++ subnet_ids new);
     static_ip_addr_ids :=
       remove_dups (static_ip_addr_ids old ++ static_ip_addr_ids new);
     ip_range_ids := remove_dups (ip_range_ids old ++ ip_range_ids new) |}.

(** One call of [register_or_update_workflow_call], as a test double of the
    service records it. *)
Record Registration : Type := mkRegistration {
  reg_workflow_name : string;
  reg_parameter : ConfigureDHCPParam;
  reg_wait : bool
}.

(** Modelled from the spec: the state of [TemporalService]
    ([maasservicelayer/services/temporal.py], not among the sources) within
    one unit of work: the pending call of each workflow name, and the
    registrations made so far. *)
Record TemporalService : Type := mkTemporalService {
  pending : gmap string ConfigureDHCPParam;
  registrations : list Registration
}.

(** A unit of work starts with nothing pending. *)
Definition new_unit_of_work : TemporalService :=
  {| pending := ∅; registrations := [] |}.

(** Modelled from the spec: [register_or_update_workflow_call]: with no call
    pending for the name the parameter is enqueued; with one pending, the
    pending parameter becomes [parameter_merge_func existing new]. *)
Definition register_or_update_workflow_call (workflow_name : string)
    (parameter : ConfigureDHCPParam)
    (parameter_merge_func :
       ConfigureDHCPParam → ConfigureDHCPParam → ConfigureDHCPParam)
    (wait : bool) (ts : TemporalService) : TemporalService :=
  {| pending :=
       match pending ts !! workflow_name with
       | None => <[workflow_name := parameter]> (pending ts)
       | Some existing =>
           <[workflow_name := parameter_merge_func existing parameter]>
             (pending ts)
       end;
     registrations :=
       registrations ts ++ [mkRegistration workflow_name parameter wait] |}.

(** Modelled from the spec: the dispatch at the end of the unit of work: one
    outgoing workflow call for each pending name, with its final
    parameter. *)
Definition dispatch (ts : TemporalService)
  : list (string * ConfigureDHCPParam) :=
  map_to_list (pending ts).

(** *** Facts about registration and dispatch *)

(** Two registrations under one name, with nothing pending for it before,
    leave one pending call: the merge of the two parameters. *)
Lemma register_twice_pending (name : string) (p1 p2 : ConfigureDHCPParam)
    (merge : ConfigureDHCPParam → ConfigureDHCPParam → ConfigureDHCPParam)
    (wait1 wait2 : bool) (ts : TemporalService) :
  pending ts !! name = None →
  pending (register_or_update_workflow_call name p2 merge wait2
             (register_or_update_workflow_call name p1 merge wait1 ts))
  = <[name := merge p1 p2]> (pending ts).
Proof.
  intros Hnone. unfold register_or_update_workflow_call. cbn.
  rewrite Hnone, lookup_insert_eq. by rewrite insert_insert_eq.
Qed.

Lemma elem_of_merged_static_ip_addr_ids (old new : ConfigureDHCPParam) (x : Z) :
  x ∈ static_ip_addr_ids (merge_configure_dhcp_param old new) ↔
  x ∈ static_ip_addr_ids old ∨ x ∈ static_ip_addr_ids new.
Proof. cbn. by rewrite elem_of_remove_dups, elem_of_app. Qed.

End Temporal.

(** ** Static IP address service *)

Module StaticIPAddressService.
Import Temporal.

(** [IpAddressType] of [maascommon.enums.ipaddress]. *)
Inductive IpAddressType : Type :=
| AUTO | STICKY | USER_RESERVED | DHCP | DISCOVERED.

#[global] Instance IpAddressType_eq_dec : EqDecision IpAddressType.
Proof. solve_decision. Defined.

(** The fields of the [StaticIPAddress] model that the service reads. *)
Record StaticIPAddress : Type := mkStaticIPAddress {
  sip_id : Z;
  ip : Net.IPAddress;
  alloc_type : IpAddressType;
  subnet_id : Z
}.

Section service.

(** [Table] is what the static IP address repository acts on. *)
Context {Resource Query Table : Type}.

Variable etag : StaticIPAddress → string.

(** The [StaticIPAddressRepository]: the methods inherited from
    [BaseRepository], and [create_or_update]. *)
Variable staticipaddress_repository :
  @BaseService.Repository StaticIPAddress Resource Query Table.
Variable repo_create_or_update :
  Resource → Table → Outcome StaticIPAddress * Table.

(** The service holds its repository and the temporal service. *)
Record Store : Type := mkStore {
  table : Table;
  temporal_service : TemporalService
}.

Definition on_table {A} (op : Table → Outcome A * Table)
  : Store → Outcome A * Store :=
  λ st, let '(r, t') := op (table st) in
        (r, {| table := t'; temporal_service := temporal_service st |}).

Definition repository
  : @BaseService.Repository StaticIPAddress Resource Query Store :=
  {| BaseService.repo_get_one := λ q,
       on_table (BaseService.repo_get_one staticipaddress_repository q);
     BaseService.repo_get_by_id := λ id,
       on_table (BaseService.repo_get_by_id staticipaddress_repository id);
     BaseService.repo_create := λ r,
       on_table (BaseService.repo_create staticipaddress_repository r);
     BaseService.repo_update_by_id := λ id r,
       on_table (BaseService.repo_update_by_id staticipaddress_repository id r);
     BaseService.repo_delete_by_id := λ id,
       on_table (BaseService.repo_delete_by_id staticipaddress_repository id) |}.

(** [self.temporal_service.register_or_update_workflow_call(
       CONFIGURE_DHCP_WORKFLOW_NAME, param,
       parameter_merge_func=merge_configure_dhcp_param, wait=False)]. *)
Definition register_configure_dhcp (param : ConfigureDHCPParam)
  : Store → Outcome unit * Store :=
  λ st, (Return (),
         {| table := table st;
            temporal_service :=
              register_or_update_workflow_call CONFIGURE_DHCP_WORKFLOW_NAME
                param merge_configure_dhcp_param false (temporal_service st) |}).

(** [StaticIPAddressService.post_create_hook]. *)
Definition post_create_hook (resource : StaticIPAddress)
  : Store → Outcome unit * Store :=
  λ st, if bool_decide (alloc_type resource ≠ DISCOVERED)
        then register_configure_dhcp
               {| subnet_ids := [];
                  static_ip_addr_ids := [sip_id resource];
                  ip_range_ids := [] |} st
        else (Return (), st).

(** [StaticIPAddressService.post_update_hook]. *)
Definition post_update_hook (old_resource updated_resource : StaticIPAddress)
  : Store → Outcome unit * Store :=
  λ st, if bool_decide (alloc_type updated_resource ≠ DISCOVERED)
        then register_configure_dhcp
               {| subnet_ids := [];
                  static_ip_addr_ids := [sip_id updated_resource];
                  ip_range_ids := [] |} st
        else (Return (), st).

(** [StaticIPAddressService.post_delete_hook]. *)
Definition post_delete_hook (resource : StaticIPAddress)
  : Store → Outcome unit * Store :=
  λ st, if bool_decide (alloc_type resource ≠ DISCOVERED)
        then register_configure_dhcp
               {| subnet_ids := [subnet_id resource];
                  static_ip_addr_ids := [];
                  ip_range_ids := [] |} st
        else (Return (), st).

(** The hooks of the service; [pre_delete_hook] is the inherited one. *)
Definition hooks
  : @BaseService.Hooks StaticIPAddress Store :=
  {| BaseService.post_create_hook := post_create_hook;
     BaseService.post_update_hook := post_update_hook;
     BaseService.pre_delete_hook := λ _ st, (Return (), st);
     BaseService.post_delete_hook := post_delete_hook |}.

(** The inherited methods, on this service. *)
Definition create (resource : Resource) :=
  BaseService.create repository hooks resource.

Definition update_by_id (id : Z) (resource : Resource)
    (etag_if_match : option string) :=
  BaseService.update_by_id sip_id etag repository hooks id resource
    etag_if_match.

Definition update_one (query : Query) (resource : Resource)
    (etag_if_match : option string) :=
  BaseService.update_one sip_id etag repository hooks query resource
    etag_if_match.

Definition delete_by_id (id : Z) (etag_if_match : option string) :=
  BaseService.delete_by_id sip_id etag repository hooks id etag_if_match.

Definition delete_one (query : Query) (etag_if_match : option string) :=
  BaseService.delete_one sip_id etag repository hooks query etag_if_match.

(** [StaticIPAddressService.create_or_update]. *)
Definition create_or_update (resource : Resource)
  : @BaseService.M StaticIPAddress Resource Query Store StaticIPAddress :=
  BaseService.bind
    (BaseService.call (BaseService.RepoCreateOrUpdate resource)
       (on_table (repo_create_or_update resource)))
    (λ ip,
       BaseService.bind
         (if bool_decide (alloc_type ip ≠ DISCOVERED)
          then BaseService.on_store
                 (register_configure_dhcp
                    {| subnet_ids := [];
                       static_ip_addr_ids := [sip_id ip];
                       ip_range_ids := [] |})
          else BaseService.ret ())
         (λ _, BaseService.ret ip)).

(** *** Facts about the registrations of the service *)

Definition static_ip_param (resource : StaticIPAddress) : ConfigureDHCPParam :=
  {| subnet_ids := [];
     static_ip_addr_ids := [sip_id resource];
     ip_range_ids := [] |}.

Definition parent_subnet_param (resource : StaticIPAddress)
  : ConfigureDHCPParam :=
  {| subnet_ids := [subnet_id resource];
     static_ip_addr_ids := [];
     ip_range_ids := [] |}.

(** The registrations an operation on [resource] is to make: none for a
    DISCOVERED address, one ConfigureDHCP registration otherwise. *)
Definition registers (resource : StaticIPAddress) (param : ConfigureDHCPParam)
  : list Registration :=
  if bool_decide (alloc_type resource = DISCOVERED) then []
  else [mkRegistration CONFIGURE_DHCP_WORKFLOW_NAME param false].

Definition registrations_of (st : Store) : list Registration :=
  registrations (temporal_service st).

Lemma on_table_temporal_service {A} (op : Table → Outcome A * Table) (st : Store) :
  temporal_service (on_table op st).2 = temporal_service st.
Proof. unfold on_table. by destruct (op (table st)). Qed.

Lemma bool_decide_not_discovered (resource : StaticIPAddress) :
  bool_decide (alloc_type resource ≠ DISCOVERED)
  = negb (bool_decide (alloc_type resource = DISCOVERED)).
Proof. by rewrite bool_decide_not. Qed.

(** C4 (as the code has it). Whether a call is registered is decided by the
    alloc_type of the resource the hook is given: the created resource for
    [post_create_hook] and [create], the resource as it is after the update
    for [post_update_hook], whatever the resource was before
    ([old_resource] is not read), the resource the repository returns for
    [create_or_update], and the deleted resource for [post_delete_hook].
    When that alloc_type is DISCOVERED nothing is registered; for any other
    alloc_type exactly one registration is made, under the ConfigureDHCP
    name. *)
Theorem discovered_never_registers (resource old_resource : StaticIPAddress)
    (payload : Resource) (st : Store)
    (w : @BaseService.World StaticIPAddress Resource Query Store) :
  registrations_of (post_create_hook resource st).2
    = registrations_of st ++ registers resource (static_ip_param resource)
  ∧ registrations_of (post_update_hook old_resource resource st).2
    = registrations_of st ++ registers resource (static_ip_param resource)
  ∧ registrations_of (post_delete_hook resource st).2
    = registrations_of st ++ registers resource (parent_subnet_param resource)
  ∧ registrations_of (BaseService.store (create payload w).2)
    = registrations_of (BaseService.store w)
      ++ match BaseService.repo_create staticipaddress_repository payload
                 (table (BaseService.store w)) with
         | (Return created, _) => registers created (static_ip_param created)
         | (Raise _, _) => []
         end
  ∧ registrations_of (BaseService.store (create_or_update payload w).2)
    = registrations_of (BaseService.store w)
      ++ match repo_create_or_update payload (table (BaseService.store w)) with
         | (Return ip, _) => registers ip (static_ip_param ip)
         | (Raise _, _) => []
         end.
Proof.
  unfold registrations_of, registers.
  repeat split.
  - unfold post_create_hook. rewrite bool_decide_not_discovered.
    destruct (bool_decide (alloc_type resource = DISCOVERED)); cbn;
      [by rewrite app_nil_r|done].
  - unfold post_update_hook. rewrite bool_decide_not_discovered.
    destruct (bool_decide (alloc_type resource = DISCOVERED)); cbn;
      [by rewrite app_nil_r|done].
  - unfold post_delete_hook. rewrite bool_decide_not_discovered.
    destruct (bool_decide (alloc_type resource = DISCOVERED)); cbn;
      [by rewrite app_nil_r|done].
  - unfold create, BaseService.create, BaseService.bind, BaseService.call,
      BaseService.ret. cbn. unfold on_table.
    destruct (BaseService.repo_create _ _ _) as [[created|e] t']; cbn;
      [|by rewrite app_nil_r].
    unfold post_create_hook. rewrite bool_decide_not_discovered.
    destruct (bool_decide (alloc_type created = DISCOVERED)); cbn;
      [by rewrite app_nil_r|done].
  - unfold create_or_update, BaseService.bind, BaseService.call,
      BaseService.on_store, BaseService.ret. cbn. unfold on_table.
    destruct (repo_create_or_update _ _) as [[created|e] t']; cbn;
      [|by rewrite app_nil_r].
    rewrite bool_decide_not_discovered.
    destruct (bool_decide (alloc_type created = DISCOVERED)); cbn;
      [by rewrite app_nil_r|done].
Qed.

(** C5. Deleting an address that is not DISCOVERED registers one
    ConfigureDHCP call whose parameter is [subnet_ids = [subnet_id]] of the
    deleted row, the parent subnet, and carries no static IP address id and
    no IP range id: the row's own id is not passed. *)
Theorem post_delete_hook_parent_subnet (resource : StaticIPAddress) (st : Store) :
  alloc_type resource ≠ DISCOVERED →
  ∃ param,
    post_delete_hook resource st
    = (Return (),
       {| table := table st;
          temporal_service :=
            register_or_update_workflow_call CONFIGURE_DHCP_WORKFLOW_NAME
              param merge_configure_dhcp_param false (temporal_service st) |})
    ∧ registrations_of (post_delete_hook resource st).2
      = registrations_of st
        ++ [mkRegistration CONFIGURE_DHCP_WORKFLOW_NAME param false]
    ∧ subnet_ids param = [subnet_id resource]
    ∧ static_ip_addr_ids param = []
    ∧ ip_range_ids param = [].
Proof.
  intros Hne. exists (parent_subnet_param resource).
  unfold post_delete_hook, registrations_of.
  rewrite bool_decide_eq_true_2 by done. done.
Qed.

(** C3. In a unit of work that starts with nothing pending, creating two
    addresses that are not DISCOVERED makes two registrations and leaves one
    outgoing call to dispatch: ConfigureDHCP, with the merge of the two
    registered parameters, whose static IP address ids are exactly the two
    ids. *)
Theorem create_two_one_dispatch (t0 t1 t2 : Table) (payload1 payload2 : Resource)
    (r1 r2 : StaticIPAddress)
    (tr : list (@BaseService.Event StaticIPAddress Resource Query)) :
  BaseService.repo_create staticipaddress_repository payload1 t0
    = (Return r1, t1) →
  BaseService.repo_create staticipaddress_repository payload2 t1
    = (Return r2, t2) →
  alloc_type r1 ≠ DISCOVERED →
  alloc_type r2 ≠ DISCOVERED →
  let w0 := {| BaseService.store :=
                 {| table := t0; temporal_service := new_unit_of_work |};
               BaseService.trace := tr |} in
  let w1 := (create payload1 w0).2 in
  let w2 := (create payload2 w1).2 in
  let merged :=
    merge_configure_dhcp_param (static_ip_param r1) (static_ip_param r2) in
  (create payload1 w0).1 = Return r1
  ∧ (create payload2 w1).1 = Return r2
  ∧ registrations_of (BaseService.store w2)
    = [ mkRegistration CONFIGURE_DHCP_WORKFLOW_NAME (static_ip_param r1) false;
        mkRegistration CONFIGURE_DHCP_WORKFLOW_NAME (static_ip_param r2) false ]
  ∧ dispatch (temporal_service (BaseService.store w2))
    = [(CONFIGURE_DHCP_WORKFLOW_NAME, merged)]
  ∧ ∀ x, x ∈ static_ip_addr_ids merged ↔ x = sip_id r1 ∨ x = sip_id r2.
Proof.
  intros Hc1 Hc2 Hn1 Hn2 w0 w1 w2 merged.
  assert (create payload1 w0
          = (Return r1,
             {| BaseService.store :=
                  {| table := t1;
                     temporal_service :=
                       register_or_update_workflow_call
                         CONFIGURE_DHCP_WORKFLOW_NAME (static_ip_param r1)
                         merge_configure_dhcp_param false new_unit_of_work |};
                BaseService.trace :=
                  (tr ++ [BaseService.RepoCreate payload1])
                  ++ [BaseService.PostCreateHook r1] |})) as E1.
  { unfold create, BaseService.create, BaseService.bind, BaseService.call,
      BaseService.ret, w0. cbn. unfold on_table. cbn. rewrite Hc1. cbn.
    unfold post_create_hook. by rewrite bool_decide_eq_true_2 by done. }
  assert (w1 = (create payload1 w0).2) as Hw1 by done.
  rewrite E1 in Hw1. cbn in Hw1.
  assert (create payload2 w1
          = (Return r2,
             {| BaseService.store :=
                  {| table := t2;
                     temporal_service :=
                       register_or_update_workflow_call
                         CONFIGURE_DHCP_WORKFLOW_NAME (static_ip_param r2)
                         merge_configure_dhcp_param false
                         (register_or_update_workflow_call
                            CONFIGURE_DHCP_WORKFLOW_NAME (static_ip_param r1)
                            merge_configure_dhcp_param false new_unit_of_work) |};
                BaseService.trace :=
                  (BaseService.trace w1 ++ [BaseService.RepoCreate payload2])
                  ++ [BaseService.PostCreateHook r2] |})) as E2.
  { rewrite Hw1.
    unfold create, BaseService.create, BaseService.bind, BaseService.call,
      BaseService.ret. cbn. unfold on_table. cbn. rewrite Hc2. cbn.
    unfold post_create_hook. by rewrite bool_decide_eq_true_2 by done. }
  assert (w2 = (create payload2 w1).2) as Hw2 by done.
  rewrite E2 in Hw2. cbn [snd] in Hw2.
  split; [by rewrite E1|]. split; [by rewrite E2|].
  rewrite Hw2. cbn [BaseService.store temporal_service registrations_of].
  split; [done|]. split.
  - unfold dispatch. rewrite register_twice_pending by done.
    cbn. by rewrite insert_empty, map_to_list_singleton.
  - intros x. unfold merged.
    rewrite elem_of_merged_static_ip_addr_ids. cbn.
    by rewrite !list_elem_of_singleton.
Qed.

End service.

End StaticIPAddressService.

(** ** The service on an in-memory repository *)

Module InMemory.
Import Temporal StaticIPAddressService.

(** Modelled from the spec: the [StaticIPAddressRepository] and the
    [BaseRepository] it inherits from are not among the sources.  This is a
    repository over a table kept in memory, in the order of insertion, on
    which the service can be run: lookups by id or by a predicate, insertion
    under the next free id, and updates that set the fields a payload
    names. *)
Definition Table : Type := list StaticIPAddress.

Definition Query : Type := StaticIPAddress → bool.

(** A partial "set these fields" resource. *)
Record Payload : Type := mkPayload {
  set_ip : option Net.IPAddress;
  set_alloc_type : option IpAddressType;
  set_subnet_id : option Z
}.

Definition apply_payload (payload : Payload) (row : StaticIPAddress)
  : StaticIPAddress :=
  {| sip_id := sip_id row;
     ip := default (ip row) (set_ip payload);
     alloc_type := default (alloc_type row) (set_alloc_type payload);
     subnet_id := default (subnet_id row) (set_subnet_id payload) |}.

Definition next_id (t : Table) : Z :=
  1 + foldr Z.max 0 (sip_id <$> t).

Definition get_one (query : Query) (t : Table)
  : Outcome (option StaticIPAddress) * Table :=
  match filter (λ row, query row = true) t with
  | [] => (Return None, t)
  | [row] => (Return (Some row), t)
  | _ :: _ :: _ => (Raise MultipleResultsFound, t)
  end.

Definition get_by_id (id : Z) (t : Table)
  : Outcome (option StaticIPAddress) * Table :=
  get_one (λ row, sip_id row =? id) t.

Definition create (payload : Payload) (t : Table)
  : Outcome StaticIPAddress * Table :=
  let row :=
    apply_payload payload
      {| sip_id := next_id t; ip := Net.IPv4 0; alloc_type := AUTO;
         subnet_id := 0 |} in
  (Return row, t ++ [row]).

Definition update_by_id (id : Z) (payload : Payload) (t : Table)
  : Outcome StaticIPAddress * Table :=
  match filter (λ row, sip_id row = id) t with
  | row :: _ =>
      (Return (apply_payload payload row),
       (λ r, if sip_id r =? id then apply_payload payload r else r) <$> t)
  | [] => (Raise BaseService.not_found, t)
  end.

Definition delete_by_id (id : Z) (t : Table)
  : Outcome (option StaticIPAddress) * Table :=
  (Return (head (filter (λ row, sip_id row = id) t)),
   filter (λ row, sip_id row ≠ id) t).

Definition create_or_update (payload : Payload) (t : Table)
  : Outcome StaticIPAddress * Table :=
  match filter (λ row, Some (ip row) = set_ip payload) t with
  | row :: _ => update_by_id (sip_id row) payload t
  | [] => create payload t
  end.

Definition staticipaddress_repository
  : @BaseService.Repository StaticIPAddress Payload Query Table :=
  {| BaseService.repo_get_one := get_one;
     BaseService.repo_get_by_id := get_by_id;
     BaseService.repo_create := create;
     BaseService.repo_update_by_id := update_by_id;
     BaseService.repo_delete_by_id := delete_by_id |}.

Definition alloc_type_name (a : IpAddressType) : string :=
  match a with
  | AUTO => "AUTO" | STICKY => "STICKY" | USER_RESERVED => "USER_RESERVED"
  | DHCP => "DHCP" | DISCOVERED => "DISCOVERED"
  end.

(** Modelled from the spec: [MaasBaseModel.etag] is not among the sources;
    a fingerprint derived from the content of the row. *)
Definition etag (row : StaticIPAddress) : string :=
  pretty (sip_id row) +:+ "/" +:+ pretty (Net.value (ip row)) +:+ "/"
    +:+ alloc_type_name (alloc_type row) +:+ "/" +:+ pretty (subnet_id row).

Abbreviation World :=
  (@BaseService.World StaticIPAddress Payload Query (@Store Table)).

(** The world at the start of a unit of work on table [t]. *)
Definition start (t : Table) : World :=
  {| BaseService.store :=
       {| table := t; temporal_service := new_unit_of_work |};
     BaseService.trace := [] |}.

Definition repository := repository staticipaddress_repository.

Definition service_create := @StaticIPAddressService.create
  Payload Query Table staticipaddress_repository.
Definition service_update_by_id := @StaticIPAddressService.update_by_id
  Payload Query Table etag staticipaddress_repository.
Definition service_update_one := @StaticIPAddressService.update_one
  Payload Query Table etag staticipaddress_repository.
Definition service_delete_by_id := @StaticIPAddressService.delete_by_id
  Payload Query Table etag staticipaddress_repository.
Definition service_delete_one := @StaticIPAddressService.delete_one
  Payload Query Table etag staticipaddress_repository.
Definition service_create_or_update := @StaticIPAddressService.create_or_update
  Payload Query Table create_or_update.

(** Two rows: address 1 (AUTO) and address 2 (DISCOVERED), on subnet 7. *)
Definition row1 : StaticIPAddress :=
  {| sip_id := 1; ip := Net.IPv4 (Net.quad 10 0 0 1); alloc_type := AUTO;
     subnet_id := 7 |}.
Definition row2 : StaticIPAddress :=
  {| sip_id := 2; ip := Net.IPv4 (Net.quad 10 0 0 2); alloc_type := DISCOVERED;
     subnet_id := 7 |}.
Definition two_rows : Table := [row1; row2].

(** *** The claims at concrete inputs *)

Definition auto_payload (a : Z) : Payload :=
  {| set_ip := Some (Net.IPv4 (Net.quad 10 0 0 a));
     set_alloc_type := Some AUTO;
     set_subnet_id := Some 7 |}.

Definition created (id a : Z) : StaticIPAddress :=
  {| sip_id := id; ip := Net.IPv4 (Net.quad 10 0 0 a); alloc_type := AUTO;
     subnet_id := 7 |}.

(** Creating two AUTO addresses in an empty table: one ConfigureDHCP call
    goes out, for the static IP address ids 1 and 2. *)
Lemma create_two_one_dispatch_witness :
  let w2 := (service_create (auto_payload 2)
               (service_create (auto_payload 1) (start [])).2).2 in
  dispatch (temporal_service (BaseService.store w2))
  = [(CONFIGURE_DHCP_WORKFLOW_NAME,
      {| subnet_ids := []; static_ip_addr_ids := [1; 2]; ip_range_ids := [] |})]
  ∧ length (registrations_of (BaseService.store w2)) = 2%nat.
Proof.
  pose proof (create_two_one_dispatch staticipaddress_repository
                [] [created 1 1] [created 1 1; created 2 2]
                (auto_payload 1) (auto_payload 2) (created 1 1) (created 2 2) []
                eq_refl eq_refl ltac:(discriminate) ltac:(discriminate))
    as (_ & _ & Hregs & Hdispatch & _).
  split.
  - exact Hdispatch.
  - unfold service_create, start. rewrite Hregs. reflexivity.
Defined.

(** Creating one DISCOVERED address registers nothing and nothing goes
    out. *)
Example create_discovered_no_dispatch :
  let w1 := (service_create
               {| set_ip := Some (Net.IPv4 (Net.quad 10 0 0 9));
                  set_alloc_type := Some DISCOVERED;
                  set_subnet_id := Some 7 |} (start [])).2 in
  registrations_of (BaseService.store w1) = []
  ∧ dispatch (temporal_service (BaseService.store w1)) = [].
Proof. by vm_compute. Qed.

(** Deleting the AUTO address 1 of subnet 7 registers [subnet_ids = [7]]. *)
Lemma post_delete_hook_parent_subnet_witness :
  ∃ param,
    registrations_of
      (post_delete_hook row1
         {| table := [row2]; temporal_service := new_unit_of_work |}).2
    = [mkRegistration CONFIGURE_DHCP_WORKFLOW_NAME param false]
    ∧ subnet_ids param = [7]
    ∧ static_ip_addr_ids param = [].
Proof.
  destruct (post_delete_hook_parent_subnet row1
              {| table := [row2]; temporal_service := new_unit_of_work |}
              ltac:(discriminate))
    as (param & _ & Hregs & Hsub & Hsip & _).
  exists param. split; [exact Hregs|]. split; [exact Hsub|exact Hsip].
Defined.

(** The same through [delete_by_id] of the service. *)
Example delete_by_id_registers_parent_subnet :
  let '(deleted, w) := service_delete_by_id 1 None (start two_rows) in
  deleted = Return (Some row1)
  ∧ table (BaseService.store w) = [row2]
  ∧ registrations_of (BaseService.store w)
    = [mkRegistration CONFIGURE_DHCP_WORKFLOW_NAME
         {| subnet_ids := [7]; static_ip_addr_ids := []; ip_range_ids := [] |}
         false].
Proof. by vm_compute. Qed.

Definition hooks := @StaticIPAddressService.hooks Table.

(** Address 1 is in the table; a stale etag stops every mutation after the
    read, and the table and the registrations are as before. *)
Lemma etag_check_guards_mutations_witness :
  let w := start two_rows in
  let failed := BaseService.etag_mismatch etag row1 "stale" in
  service_update_by_id 1 (auto_payload 5) (Some "stale") w
  = (Raise failed, BaseService.after_read w (BaseService.RepoGetById 1)
                     (BaseService.store w))
  ∧ service_delete_by_id 1 (Some "stale") w
    = (Raise failed, BaseService.after_read w (BaseService.RepoGetById 1)
                       (BaseService.store w)).
Proof.
  pose proof (BaseService.etag_check_guards_mutations sip_id etag
                repository hooks (start two_rows) 1
                (λ row, sip_id row =? 1) row1
                (BaseService.store (start two_rows))
                (BaseService.store (start two_rows))
                (auto_payload 5) (Some "stale") eq_refl eq_refl) as H.
  cbv zeta in H.
  destruct (bool_decide ("stale" = etag row1)) eqn:Hstale;
    [vm_compute in Hstale; discriminate|].
  destruct H as (Hu & _ & Hd & _). split; [exact Hu|exact Hd].
Defined.

(** With the current etag the same update goes through, to the write and
    the hook. *)
Example update_by_id_current_etag :
  let '(updated, w) :=
    service_update_by_id 1 (auto_payload 5) (Some (etag row1))
      (start two_rows) in
  updated = Return (created 1 5)
  ∧ BaseService.trace w
    = [BaseService.RepoGetById 1;
       BaseService.RepoUpdateById 1 (auto_payload 5);
       BaseService.PostUpdateHook row1 (created 1 5)]
  ∧ table (BaseService.store w) = [created 1 5; row2].
Proof. by vm_compute. Qed.

(** No address 9 in the table: update raises not-found, delete returns
    [None]; both stop after the read. *)
Lemma update_delete_absent_or_present_witness :
  let w := start two_rows in
  let w' := BaseService.after_read w (BaseService.RepoGetById 9)
              (BaseService.store w) in
  service_update_by_id 9 (auto_payload 5) None w
  = (Raise BaseService.not_found, w')
  ∧ service_delete_by_id 9 None w = (Return None, w').
Proof.
  pose proof (BaseService.update_delete_absent_or_present sip_id etag
                repository hooks (start two_rows) 9
                (λ row, sip_id row =? 9) None
                (BaseService.store (start two_rows))
                (BaseService.store (start two_rows))
                (auto_payload 5) None eq_refl eq_refl) as H.
  cbv zeta in H. destruct H as (Hu & _ & Hd & _).
  split; [exact Hu|exact Hd].
Defined.

(** C8, as stated, fails: deleting an id that matches no stored address
    raises no error at all, not-found or other; the call returns [None]. *)
Lemma delete_absent_is_not_an_error :
  (service_delete_by_id 9 None (start two_rows)).1 = Return None
  ∧ (service_delete_one (λ row, sip_id row =? 9) None (start two_rows)).1
    = Return None
  ∧ ¬ ∃ e, (service_delete_by_id 9 None (start two_rows)).1 = Raise e.
Proof.
  split; [reflexivity|]. split; [reflexivity|].
  intros [e He]. vm_compute in He. discriminate.
Qed.

End InMemory.

(** ** VLANs repository (API server, v3) *)

Module Vlans.

(** A row of the VLAN table. *)
Record Vlan : Type := mkVlan {
  id : Z;
  vid : Z;
  fabric_id : Z
}.

#[global] Instance Vlan_eq_dec : EqDecision Vlan.
Proof. solve_decision. Defined.

(** [ListResult[Vlan]]. *)
Record ListResult : Type := mkListResult {
  items : list Vlan;
  next_token : option Z
}.

(** [ORDER BY id DESC]: [a] comes no later than [b]. *)
Definition desc_id (a b : Vlan) : Prop := id b <= id a.

#[global] Instance desc_id_dec : RelDecision desc_id.
Proof. intros a b. unfold desc_id. apply _. Defined.

(** [list.pop()]: the last element and the list without it; popping from an
    empty list raises [IndexError] ([None]). *)
Definition pop {A} (l : list A) : option (A * list A) :=
  match reverse l with
  | [] => None
  | x :: rest => Some (x, reverse rest)
  end.

(** The rows of
    [SELECT * FROM vlan [WHERE id <= bound] ORDER BY id DESC], before the
    LIMIT. *)
Definition ordered_rows (VlanTable : list Vlan) (bound : option Z) : list Vlan :=
  merge_sort desc_id
    match bound with
    | Some b => filter (λ row, id row <= b) VlanTable
    | None => VlanTable
    end.

(** The same with [LIMIT limit]; PostgreSQL rejects a negative limit. *)
Definition execute (VlanTable : list Vlan) (bound : option Z) (limit : Z)
  : Outcome (list Vlan) :=
  if limit <? 0 then Raise DatabaseError
  else Return (take (Z.to_nat limit) (ordered_rows VlanTable bound)).

Section list.

(** Python's [str] on an integer and [int] on a string; [int] returns the
    number or raises [ValueError] ([None]). *)
Variable str : Z → string.
Variable int : string → option Z.

(** [VlansRepository.list]. *)
Definition list_ (VlanTable : list Vlan) (token : option string) (size : Z)
  : Outcome ListResult :=
  let bound :=
    match token with
    | Some t =>
        match int t with
        | Some n => Return (Some n)
        | None => Raise ValueError
        end
    | None => Return None
    end in
  match bound with
  | Raise e => Raise e
  | Return bound =>
      match execute VlanTable bound (size + 1) with
      | Raise e => Raise e
      | Return result =>
          if Z.of_nat (length result) >? size then
            match pop result with
            | Some (extra, result) =>
                Return {| items := result; next_token := Some (id extra) |}
            | None => Raise IndexError
            end
          else Return {| items := result; next_token := None |}
      end
  end.

(** A client that follows [next_token] from [token] until it is absent,
    handing each [next_token] back in its string form, and collects the
    items.  [None] when a call raises or the fuel runs out. *)
Fixpoint iterate (fuel : nat) (VlanTable : list Vlan) (token : option string)
    (size : Z) : option (list Vlan) :=
  match fuel with
  | O => None
  | S fuel =>
      match list_ VlanTable token size with
      | Raise _ => None
      | Return page =>
          match next_token page with
          | None => Some (items page)
          | Some key =>
              rest ← iterate fuel VlanTable (Some (str key)) size;
              Some (items page ++ rest)
          end
      end
  end.

End list.

(** *** Facts about the ordered rows *)

#[global] Instance desc_id_total : Total desc_id.
Proof. intros a b. unfold desc_id. lia. Qed.

#[global] Instance desc_id_trans : Transitive desc_id.
Proof. intros a b c. unfold desc_id. lia. Qed.

(** Strictly descending ids. *)
Definition strictly_desc (a b : Vlan) : Prop := id b < id a.

Lemma NoDup_id_inj (l : list Vlan) (x y : Vlan) :
  NoDup (id <$> l) → x ∈ l → y ∈ l → id x = id y → x = y.
Proof.
  induction l as [|z l IH]; intros Hnd Hx Hy E; [by apply elem_of_nil in Hx|].
  rewrite fmap_cons in Hnd. apply NoDup_cons in Hnd as [Hz Hnd].
  apply elem_of_cons in Hx as [->|Hx]; apply elem_of_cons in Hy as [->|Hy].
  - done.
  - destruct Hz. rewrite E. by apply list_elem_of_fmap_2.
  - destruct Hz. rewrite <- E. by apply list_elem_of_fmap_2.
  - by apply IH.
Qed.

Lemma desc_id_sorted_strict (l : list Vlan) :
  NoDup (id <$> l) → StronglySorted desc_id l → StronglySorted strictly_desc l.
Proof.
  induction l as [|x l IH]; intros Hnd HS; [constructor|].
  rewrite fmap_cons in Hnd. apply NoDup_cons in Hnd as [Hx Hnd].
  apply StronglySorted_inv in HS as [HS Hall].
  constructor; [by apply IH|].
  rewrite Forall_forall in Hall |- *. intros y Hy.
  specialize (Hall y Hy). unfold desc_id in Hall. unfold strictly_desc.
  assert (id y ≠ id x); [|lia].
  intros E. apply Hx. rewrite <- E. by apply list_elem_of_fmap_2.
Qed.

Lemma StronglySorted_filter {A} (R : relation A) (P : A → Prop)
    `{∀ x, Decision (P x)} (l : list A) :
  StronglySorted R l → StronglySorted R (filter P l).
Proof.
  induction 1 as [|x l HS IH Hall]; [constructor|].
  destruct (decide (P x)).
  - rewrite filter_cons_True by done. constructor; [done|].
    rewrite Forall_forall in Hall |- *. intros y Hy.
    apply list_elem_of_filter in Hy as [_ Hy]. by apply Hall.
  - by rewrite filter_cons_False.
Qed.

Lemma filter_Forall {A} (P : A → Prop) `{∀ x, Decision (P x)} (l : list A) :
  Forall P l → filter P l = l.
Proof.
  induction 1 as [|x l Hx _ IH]; [done|].
  rewrite filter_cons_True by done. by f_equal.
Qed.

Lemma ordered_rows_Permutation (T : list Vlan) :
  ordered_rows T None ≡ₚ T.
Proof. apply merge_sort_Permutation. Qed.

Lemma ordered_rows_strict (T : list Vlan) :
  NoDup (id <$> T) → StronglySorted strictly_desc (ordered_rows T None).
Proof.
  intros Hnd. apply desc_id_sorted_strict.
  - by rewrite ordered_rows_Permutation.
  - apply (StronglySorted_merge_sort desc_id).
Qed.

(** With distinct ids, the WHERE clause can be applied after the ORDER BY. *)
Lemma ordered_rows_bound (T : list Vlan) (b : Z) :
  NoDup (id <$> T) →
  ordered_rows T (Some b) = filter (λ row, id row <= b) (ordered_rows T None).
Proof.
  intros Hnd. apply (StronglySorted_unique_strong desc_id).
  - intros x y Hx Hy Hxy Hyx. unfold desc_id in *.
    apply (NoDup_id_inj T); [done| | |lia].
    + unfold ordered_rows in Hx. rewrite merge_sort_Permutation in Hx.
      by apply list_elem_of_filter in Hx as [_ ?].
    + apply list_elem_of_filter in Hy as [_ Hy].
      by rewrite ordered_rows_Permutation in Hy.
  - apply (StronglySorted_merge_sort desc_id).
  - apply StronglySorted_filter, (StronglySorted_merge_sort desc_id).
  - unfold ordered_rows. rewrite !merge_sort_Permutation. done.
Qed.


Lemma pop_snoc {A} (l : list A) (x : A) : pop (l ++ [x]) = Some (x, l).
Proof. unfold pop. by rewrite reverse_snoc, reverse_involutive. Qed.

(** *** Facts about [list] *)

Section pagination.

Variable str : Z → string.
Variable int : string → option Z.

(** [token] is absent, or parses to the key [bound]. *)
Definition parses_to (token : option string) (bound : option Z) : Prop :=
  match token with
  | None => bound = None
  | Some t => bound ≠ None ∧ int t = bound
  end.

(** One call: the page is the first [size] rows of the ordered rows, and
    [next_token] the id of the row after them, when there is one. *)
Lemma list_page (T : list Vlan) (token : option string) (bound : option Z)
    (size : Z) :
  0 <= size → parses_to token bound →
  list_ int T token size
  = Return {| items := take (Z.to_nat size) (ordered_rows T bound);
              next_token := id <$> ordered_rows T bound !! Z.to_nat size |}.
Proof.
  intros Hsize Htok. unfold list_.
  assert (match token with
          | Some t => match int t with
                      | Some n => Return (Some n)
                      | None => Raise ValueError
                      end
          | None => Return None
          end = Return bound) as ->.
  { destruct token as [t|]; cbn in Htok; [|by subst].
    destruct Htok as [Hb ->]. by destruct bound. }
  unfold execute. destruct (size + 1 <? 0) eqn:E; [apply Z.ltb_lt in E; lia|].
  replace (Z.to_nat (size + 1)) with (S (Z.to_nat size)) by lia.
  set (rows := ordered_rows T bound). set (k := Z.to_nat size).
  destruct (rows !! k) as [extra|] eqn:Hk.
  - rewrite (take_S_r _ _ _ Hk).
    assert (k < length rows)%nat by (by eapply lookup_lt_Some).
    rewrite length_app, length_take_le by lia. cbn [length].
    destruct (Z.gtb_spec (Z.of_nat (k + 1)) size); [|lia].
    by rewrite pop_snoc.
  - apply lookup_ge_None in Hk.
    rewrite !take_ge by lia.
    destruct (Z.gtb_spec (Z.of_nat (length rows)) size); [lia|done].
Qed.

Hypothesis int_str : ∀ z, int (str z) = Some z.



(** C10. A token that [int] does not parse makes [list] raise the conversion
    error: no page is returned, the statement is never run, and the error is
    not a validation error. *)
Theorem list_unparsable_token (T : list Vlan) (token : string) (size : Z) :
  int token = None →
  list_ int T (Some token) size = Raise ValueError
  ∧ (∀ page, list_ int T (Some token) size ≠ Return page)
  ∧ (∀ details, list_ int T (Some token) size
                ≠ Raise (ValidationException details)).
Proof.
  intros Hint. unfold list_. rewrite Hint. done.
Qed.

End pagination.

(** [str] and [int] on the decimal numerals. *)
Definition decimal_str (z : Z) : string :=
  DecimalString.NilZero.string_of_int (Z.to_int z).

Definition decimal_int (s : string) : option Z :=
  Z.of_int <$> DecimalString.NilZero.int_of_string s.

Lemma decimal_int_str (z : Z) : decimal_int (decimal_str z) = Some z.
Proof.
  unfold decimal_int, decimal_str.
  rewrite DecimalString.NilZero.isi.
  - cbn. by rewrite DecimalZ.of_to.
  - destruct z as [|q|q]; cbn; try discriminate.
    intros [= H]. by apply (DecimalPos.Unsigned.to_uint_nonnil q).
  - destruct z as [|q|q]; cbn; try discriminate.
    intros [= H]. by apply (DecimalPos.Unsigned.to_uint_nonnil q).
Qed.

(** *** The claims at concrete inputs *)

(** Five VLANs inserted in no particular order. *)
Definition five_vlans : list Vlan :=
  [mkVlan 3 30 0; mkVlan 1 10 0; mkVlan 5 50 0; mkVlan 2 20 0; mkVlan 4 40 0].

Example list_first_page :
  list_ decimal_int five_vlans None 2
  = Return {| items := [mkVlan 5 50 0; mkVlan 4 40 0]; next_token := Some 3 |}.
Proof. by vm_compute. Qed.

Example list_second_page :
  list_ decimal_int five_vlans (Some "3") 2
  = Return {| items := [mkVlan 3 30 0; mkVlan 2 20 0]; next_token := Some 1 |}.
Proof. by vm_compute. Qed.

Example list_last_page :
  list_ decimal_int five_vlans (Some "1") 2
  = Return {| items := [mkVlan 1 10 0]; next_token := None |}.
Proof. by vm_compute. Qed.


Lemma list_unparsable_token_witness :
  list_ decimal_int five_vlans (Some "abc") 2 = Raise ValueError.
Proof.
  exact (proj1 (list_unparsable_token decimal_int five_vlans "abc" 2 eq_refl)).
Defined.

(** With a page size of zero the client never gets past the first row: every
    call returns no item and the same key again. *)
Example list_size_zero :
  list_ decimal_int five_vlans None 0
  = Return {| items := []; next_token := Some 5 |}
  ∧ list_ decimal_int five_vlans (Some (decimal_str 5)) 0
    = Return {| items := []; next_token := Some 5 |}.
Proof. by vm_compute. Qed.

End Vlans.

(** ** Service cache *)

Module ServiceCache.

Section cache.

(** [V] is what cached methods return (other than [None]), [Args] their
    arguments, and [Backend] the rest of the state of the service. *)
Context {V Args Backend : Type}.

(** A [Service] with its [ServiceCache]: the declared slots, each holding
    [None] or a value; [cache] itself may be [None]. *)
Record Service : Type := mkService {
  cache : option (gmap string (option V));
  backend : Backend
}.

(** A method of the service: returns a value or [None], or raises, and may
    change the service. *)
Definition Method : Type := Args → Service → Outcome (option V) * Service.

(** [ServiceCache.clear]: every slot back to [None]. *)
Definition clear (c : gmap string (option V)) : gmap string (option V) :=
  (λ _, None) <$> c.

(** [self.cache.__setattr__(attr, value)] followed by
    [return self.cache.__getattribute__(attr)], on the service as the
    method left it; a slot that is not declared raises [AttributeError], as
    does a cache that has become [None]. *)
Definition populate (attr : string) (value : option V) (self : Service)
  : Outcome (option V) * Service :=
  match cache self with
  | None => (Raise AttributeError, self)
  | Some c =>
      match c !! attr with
      | None => (Raise AttributeError, self)
      | Some _ =>
          (Return value,
           {| cache := Some (<[attr := value]> c); backend := backend self |})
      end
  end.

(** [Service.from_cache_or_execute(attr)(fn)]: the [wrapped] method. *)
Definition from_cache_or_execute (attr : string) (fn : Method) : Method :=
  λ args self,
    match cache self with
    | None => fn args self
    | Some c =>
        match c !! attr with
        | None => (Raise AttributeError, self)
        | Some None =>
            match fn args self with
            | (Return value, self') => populate attr value self'
            | (Raise e, self') => (Raise e, self')
            end
        | Some (Some v) => (Return (Some v), self)
        end
    end.

(** What the slot [attr] of the service holds, when it has a cache with
    that slot. *)
Definition slot (attr : string) (self : Service) : option (option V) :=
  c ← cache self; c !! attr.

(** Calls of a method one after the other; the returned values, up to the
    first call that raises. *)
Fixpoint calls (m : Method) (argss : list Args) (self : Service)
  : list (option V) * Service :=
  match argss with
  | [] => ([], self)
  | args :: argss =>
      match m args self with
      | (Return v, self') =>
          let '(vs, self'') := calls m argss self' in (v :: vs, self'')
      | (Raise _, self') => ([], self')
      end
  end.

(** *** Facts about [from_cache_or_execute] *)

Lemma slot_populate (attr : string) (value : option V) (self : Service) :
  is_Some (slot attr self) →
  populate attr value self
  = (Return value,
     {| cache := (λ c, <[attr := value]> c) <$> cache self;
        backend := backend self |})
  ∧ slot attr (populate attr value self).2 = Some value.
Proof.
  unfold slot, populate. destruct (cache self) as [c|]; cbn; [|by intros [? ?]].
  destruct (c !! attr) eqn:E; [|by intros [? ?]]. intros _.
  split; [done|]. cbn. by rewrite lookup_insert_eq.
Qed.

(** A filled slot answers every call, whatever the arguments, and nothing
    changes. *)
Lemma from_cache_hit (attr : string) (fn : Method) (v : V) (self : Service) :
  slot attr self = Some (Some v) →
  ∀ args, from_cache_or_execute attr fn args self = (Return (Some v), self).
Proof.
  unfold slot, from_cache_or_execute. intros Hslot args.
  destruct (cache self) as [c|]; cbn in Hslot; [|done]. by rewrite Hslot.
Qed.

Lemma calls_hit (attr : string) (fn : Method) (v : V) (self : Service)
    (argss : list Args) :
  slot attr self = Some (Some v) →
  calls (from_cache_or_execute attr fn) argss self
  = (replicate (length argss) (Some v), self).
Proof.
  intros Hslot. induction argss as [|args argss IH]; [done|].
  cbn. rewrite (from_cache_hit attr fn v self Hslot), IH. done.
Qed.

Lemma from_cache_miss (attr : string) (fn : Method) (args : Args)
    (self : Service) :
  slot attr self = Some None →
  from_cache_or_execute attr fn args self
  = match fn args self with
    | (Return value, self') => populate attr value self'
    | (Raise e, self') => (Raise e, self')
    end.
Proof.
  unfold slot, from_cache_or_execute. intros Hslot.
  destruct (cache self) as [c|]; cbn in Hslot; [|done]. by rewrite Hslot.
Qed.

(** C9. Without a cache the wrapped method is the method itself, on every
    call.  With a cache whose slot is filled, every call returns the stored
    value, whatever its arguments, and leaves the service as it is: the
    method is not run.  With a cache whose slot is empty the method is run
    and its result is put in the slot: a result other than [None] is then
    what every later call returns, while after a [None] result the slot is
    still empty and the next call runs the method again. *)
Theorem from_cache_or_execute_spec (attr : string) (fn : Method)
    (args : Args) (self : Service) :
  (cache self = None →
     from_cache_or_execute attr fn args self = fn args self)
  ∧ (∀ v, slot attr self = Some (Some v) →
       ∀ argss, calls (from_cache_or_execute attr fn) argss self
                = (replicate (length argss) (Some v), self))
  ∧ (slot attr self = Some None →
     ∀ value self', fn args self = (Return value, self') →
       is_Some (slot attr self') →
       let self'' := {| cache := (λ c, <[attr := value]> c) <$> cache self';
                        backend := backend self' |} in
       from_cache_or_execute attr fn args self = (Return value, self'')
       ∧ slot attr self'' = Some value
       ∧ match value with
         | Some v =>
             ∀ argss, calls (from_cache_or_execute attr fn) argss self''
                      = (replicate (length argss) (Some v), self'')
         | None =>
             ∀ args', from_cache_or_execute attr fn args' self''
                      = match fn args' self'' with
                        | (Return value', self3) => populate attr value' self3
                        | (Raise e, self3) => (Raise e, self3)
                        end
         end).
Proof.
  split; [|split].
  - intros Hnone. unfold from_cache_or_execute. by rewrite Hnone.
  - intros v Hslot argss. by apply calls_hit.
  - intros Hslot value self' Hfn Hdeclared self''.
    destruct (slot_populate attr value self' Hdeclared) as [Hpop Hafter].
    rewrite Hpop in Hafter. cbn [snd] in Hafter. fold self'' in Hafter.
    rewrite (from_cache_miss attr fn args self Hslot), Hfn, Hpop.
    split; [done|]. split; [done|].
    destruct value as [v|].
    + intros argss. by apply calls_hit.
    + intros args'. by apply from_cache_miss.
Qed.

End cache.

(** *** The claim at concrete inputs *)

(** A method that counts its runs in the backend: the first two runs return
    [None], a later run returns a number made of its argument and the count. *)
Definition counting : @Method Z Z nat :=
  λ args self,
    (Return (if (backend self <? 2)%nat then None
             else Some (args + 100 * Z.of_nat (backend self))),
     {| cache := cache self; backend := S (backend self) |}).

Definition with_cache : @Service Z nat :=
  {| cache := Some {["value" := None]}; backend := 0%nat |}.

Definition without_cache : @Service Z nat :=
  {| cache := None; backend := 0%nat |}.

(** Five calls with the arguments 1 to 5.  With the cache the method runs
    three times: twice for [None], once for 203, which the last two calls
    get back in spite of their arguments.  Without it the method runs five
    times. *)
Example from_cache_or_execute_counting :
  let wrapped := from_cache_or_execute "value" counting in
  (calls wrapped [1; 2; 3; 4; 5] with_cache).1
    = [None; None; Some 203; Some 203; Some 203]
  ∧ backend (calls wrapped [1; 2; 3; 4; 5] with_cache).2 = 3%nat
  ∧ (calls wrapped [1; 2; 3; 4; 5] without_cache).1
    = [None; None; Some 203; Some 304; Some 405]
  ∧ backend (calls wrapped [1; 2; 3; 4; 5] without_cache).2 = 5%nat.
Proof. by vm_compute. Qed.

Lemma from_cache_or_execute_spec_witness :
  let wrapped := from_cache_or_execute "value" counting in
  let filled : @Service Z nat :=
    {| cache := Some {["value" := Some 203]}; backend := 3%nat |} in
  wrapped 7 without_cache = counting 7 without_cache
  ∧ calls wrapped [4; 5] filled = ([Some 203; Some 203], filled).
Proof.
  split.
  - exact (proj1 (from_cache_or_execute_spec "value" counting 7 without_cache)
             eq_refl).
  - exact (proj1 (proj2 (from_cache_or_execute_spec "value" counting 7
                           {| cache := Some {["value" := Some 203]};
                              backend := 3%nat |}))
             203 eq_refl [4; 5]).
Defined.

End ServiceCache.

(** ** Base service: the order of the calls of delete and update *)

Module BaseServiceFlow.
Import BaseService.

Section flow.

Context {T Resource Query Store : Type}.
Variable model_id : T → Z.
Variable etag : T → string.
Variable repository : @Repository T Resource Query Store.
Variable hooks : @Hooks T Store.

(** X1. A delete of an existing resource whose etag check passes and whose
    [pre_delete_hook] returns makes its calls in this order: the read,
    [pre_delete_hook] on the resource read, the repository's [delete_by_id]
    with that resource's id and, only when the repository returns a deleted
    resource, [post_delete_hook] on it.  When the repository returns [None]
    the call returns [None] and [post_delete_hook] is not run. *)
Theorem delete_by_id_flow (w : World) (id : Z) (res : T)
    (etag_if_match : option string) (found : option T) (s1 s2 s3 : Store) :
  repo_get_by_id repository id (store w) = (Return (Some res), s1) →
  etag_if_match = None ∨ etag_if_match = Some (etag res) →
  pre_delete_hook hooks res s1 = (Return (), s2) →
  repo_delete_by_id repository (model_id res) s2 = (Return found, s3) →
  delete_by_id model_id etag repository hooks id etag_if_match w
  = match found with
    | Some deleted =>
        let '(r, s4) := post_delete_hook hooks deleted s3 in
        (match r with Return _ => Return (Some deleted) | Raise e => Raise e end,
         {| store := s4;
            trace := trace w ++ [RepoGetById id; PreDeleteHook res;
                                 RepoDeleteById (model_id res);
                                 PostDeleteHook deleted] |})
    | None =>
        (Return None,
         {| store := s3;
            trace := trace w ++ [RepoGetById id; PreDeleteHook res;
                                 RepoDeleteById (model_id res)] |})
    end.
Proof.
  intros Hget Hetag Hpre Hdel.
  unfold delete_by_id.
  rewrite (bind_run _ _ _ _ _ (get_by_id_run _ _ _ _ _ Hget)).
  rewrite delete_resource_checked by done.
  unfold delete_checked, bind, call, after_read. cbn [store trace].
  rewrite Hpre. cbn [store trace]. rewrite Hdel. cbn [store trace].
  destruct found as [deleted|].
  - unfold bind, call, ret. cbn [store trace].
    destruct (post_delete_hook hooks deleted s3) as [[[]|e] s4];
      by rewrite <- !app_assoc.
  - unfold ret. by rewrite <- !app_assoc.
Qed.

(** X2. When [pre_delete_hook] raises, the delete raises the same error and
    the repository's [delete_by_id] is never called: the read and the hook
    are the only calls made. *)
Theorem pre_delete_hook_raise_stops_delete (w : World) (id : Z) (res : T)
    (etag_if_match : option string) (e : Exception) (s1 s2 : Store) :
  repo_get_by_id repository id (store w) = (Return (Some res), s1) →
  etag_if_match = None ∨ etag_if_match = Some (etag res) →
  pre_delete_hook hooks res s1 = (Raise e, s2) →
  delete_by_id model_id etag repository hooks id etag_if_match w
  = (Raise e,
     {| store := s2; trace := trace w ++ [RepoGetById id; PreDeleteHook res] |}).
Proof.
  intros Hget Hetag Hpre.
  unfold delete_by_id.
  rewrite (bind_run _ _ _ _ _ (get_by_id_run _ _ _ _ _ Hget)).
  rewrite delete_resource_checked by done.
  unfold delete_checked, bind, call, after_read. cbn [store trace].
  rewrite Hpre. by rewrite <- !app_assoc.
Qed.

(** X3. When the repository's [update_by_id] raises, the update raises the
    same error and [post_update_hook] is not run. *)
Theorem repo_update_raise_skips_hook (w : World) (id : Z) (old : T)
    (resource : Resource) (etag_if_match : option string) (e : Exception)
    (s1 s2 : Store) :
  repo_get_by_id repository id (store w) = (Return (Some old), s1) →
  etag_if_match = None ∨ etag_if_match = Some (etag old) →
  repo_update_by_id repository (model_id old) resource s1 = (Raise e, s2) →
  update_by_id model_id etag repository hooks id resource etag_if_match w
  = (Raise e,
     {| store := s2;
        trace := trace w ++ [RepoGetById id;
                             RepoUpdateById (model_id old) resource] |}).
Proof.
  intros Hget Hetag Hupd.
  unfold update_by_id.
  rewrite (bind_run _ _ _ _ _ (get_by_id_run _ _ _ _ _ Hget)).
  rewrite update_resource_checked by done.
  unfold update_checked, bind, call, after_read. cbn [store trace].
  rewrite Hupd. by rewrite <- !app_assoc.
Qed.

(** X4. The write is made with the id of the resource that was read, not
    with the id or the query the caller gave: [update_one] and [delete_one]
    call the repository's [update_by_id] and [delete_by_id] with
    [existing.id]. *)
Theorem update_one_writes_by_existing_id (w : World) (query : Query) (old : T)
    (resource : Resource) (etag_if_match : option string) (s1 : Store) :
  repo_get_one repository query (store w) = (Return (Some old), s1) →
  etag_if_match = None ∨ etag_if_match = Some (etag old) →
  ∃ rest_u rest_d,
    trace (update_one model_id etag repository hooks query resource
             etag_if_match w).2
    = trace w ++ RepoGetOne query :: RepoUpdateById (model_id old) resource
                 :: rest_u
    ∧ trace (delete_one model_id etag repository hooks query etag_if_match w).2
      = trace w ++ RepoGetOne query :: PreDeleteHook old :: rest_d
    ∧ ∀ id, RepoDeleteById id ∈ rest_d → id = model_id old.
Proof.
  intros Hget Hetag.
  unfold update_one, delete_one.
  rewrite !(bind_run _ _ _ _ _ (get_one_run _ _ _ _ _ Hget)).
  rewrite update_resource_checked, delete_resource_checked by done.
  unfold update_checked, delete_checked, bind, call, ret, after_read.
  cbn [store trace].
  destruct (repo_update_by_id repository (model_id old) resource s1)
    as [[new|e] s2]; cbn [store trace].
  - destruct (post_update_hook hooks old new s2) as [[[]|e] s3];
      cbn [store trace snd].
    all: destruct (pre_delete_hook hooks old s1) as [[[]|e'] s4];
      cbn [store trace snd].
    all: try destruct (repo_delete_by_id repository (model_id old) s4)
      as [[[d|]|e''] s5]; cbn [store trace snd].
    all: try destruct (post_delete_hook hooks d s5) as [[[]|e3] s6];
      cbn [store trace snd].
    all: rewrite <- ?app_assoc; cbn [app]; eexists _, _;
      (split; [reflexivity|]); (split; [reflexivity|]);
      intros i Hi; set_solver.
  - destruct (pre_delete_hook hooks old s1) as [[[]|e'] s4];
      cbn [store trace snd].
    all: try destruct (repo_delete_by_id repository (model_id old) s4)
      as [[[d|]|e''] s5]; cbn [store trace snd].
    all: try destruct (post_delete_hook hooks d s5) as [[[]|e3] s6];
      cbn [store trace snd].
    all: rewrite <- ?app_assoc; cbn [app]; eexists _, _;
      (split; [reflexivity|]); (split; [reflexivity|]);
      intros i Hi; set_solver.
Qed.

End flow.

End BaseServiceFlow.

(** *** The order of the calls, on the in-memory repository *)

Module InMemoryFlow.
Import Temporal StaticIPAddressService InMemory.

Definition is_row (id : Z) : Query := λ row, sip_id row =? id.

(** Hooks whose [pre_delete_hook] refuses every delete. *)
Definition refusing_hooks : @BaseService.Hooks StaticIPAddress (@Store Table) :=
  {| BaseService.post_create_hook := λ _ st, (Return (), st);
     BaseService.post_update_hook := λ _ _ st, (Return (), st);
     BaseService.pre_delete_hook := λ _ st, (Raise (ValidationException []), st);
     BaseService.post_delete_hook := λ _ st, (Return (), st) |}.

(** A repository whose writes fail. *)
Definition read_only_repository
  : @BaseService.Repository StaticIPAddress Payload Query (@Store Table) :=
  {| BaseService.repo_get_one := BaseService.repo_get_one repository;
     BaseService.repo_get_by_id := BaseService.repo_get_by_id repository;
     BaseService.repo_create := λ _ st, (Raise DatabaseError, st);
     BaseService.repo_update_by_id := λ _ _ st, (Raise DatabaseError, st);
     BaseService.repo_delete_by_id := λ _ st, (Raise DatabaseError, st) |}.

Lemma delete_by_id_flow_witness :
  service_delete_by_id 1 None (start two_rows)
  = (Return (Some row1),
     {| BaseService.store :=
          {| table := [row2];
             temporal_service :=
               register_or_update_workflow_call CONFIGURE_DHCP_WORKFLOW_NAME
                 (parent_subnet_param row1) merge_configure_dhcp_param false
                 new_unit_of_work |};
        BaseService.trace :=
          [BaseService.RepoGetById 1; BaseService.PreDeleteHook row1;
           BaseService.RepoDeleteById 1; BaseService.PostDeleteHook row1] |}).
Proof.
  exact (BaseServiceFlow.delete_by_id_flow sip_id etag repository hooks
           (start two_rows) 1 row1 None (Some row1)
           (BaseService.store (start two_rows))
           (BaseService.store (start two_rows))
           {| table := [row2]; temporal_service := new_unit_of_work |}
           eq_refl (or_introl eq_refl) eq_refl eq_refl).
Defined.

Lemma pre_delete_hook_raise_stops_delete_witness :
  BaseService.delete_by_id sip_id etag repository refusing_hooks 1 None
    (start two_rows)
  = (Raise (ValidationException []),
     {| BaseService.store := BaseService.store (start two_rows);
        BaseService.trace :=
          [BaseService.RepoGetById 1; BaseService.PreDeleteHook row1] |}).
Proof.
  exact (BaseServiceFlow.pre_delete_hook_raise_stops_delete sip_id etag
           repository refusing_hooks (start two_rows) 1 row1 None
           (ValidationException [])
           (BaseService.store (start two_rows))
           (BaseService.store (start two_rows))
           eq_refl (or_introl eq_refl) eq_refl).
Defined.

Lemma repo_update_raise_skips_hook_witness :
  BaseService.update_by_id sip_id etag read_only_repository hooks 1
    (auto_payload 5) None (start two_rows)
  = (Raise DatabaseError,
     {| BaseService.store := BaseService.store (start two_rows);
        BaseService.trace :=
          [BaseService.RepoGetById 1;
           BaseService.RepoUpdateById 1 (auto_payload 5)] |}).
Proof.
  exact (BaseServiceFlow.repo_update_raise_skips_hook sip_id etag
           read_only_repository hooks (start two_rows) 1 row1 (auto_payload 5)
           None DatabaseError
           (BaseService.store (start two_rows))
           (BaseService.store (start two_rows))
           eq_refl (or_introl eq_refl) eq_refl).
Defined.

(** The query selects the row by its address; the write still goes to id 2. *)
Lemma update_one_writes_by_existing_id_witness :
  ∃ rest_u rest_d,
    BaseService.trace
      (service_update_one (λ row, bool_decide (ip row = ip row2))
         (auto_payload 5) None (start two_rows)).2
    = [] ++ BaseService.RepoGetOne (λ row, bool_decide (ip row = ip row2))
            :: BaseService.RepoUpdateById 2 (auto_payload 5) :: rest_u
    ∧ BaseService.trace
        (service_delete_one (λ row, bool_decide (ip row = ip row2)) None
           (start two_rows)).2
      = [] ++ BaseService.RepoGetOne (λ row, bool_decide (ip row = ip row2))
              :: BaseService.PreDeleteHook row2 :: rest_d
    ∧ ∀ id, BaseService.RepoDeleteById id ∈ rest_d → id = 2.
Proof.
  exact (BaseServiceFlow.update_one_writes_by_existing_id sip_id etag
           repository hooks (start two_rows)
           (λ row, bool_decide (ip row = ip row2)) row2 (auto_payload 5) None
           (BaseService.store (start two_rows))
           eq_refl (or_introl eq_refl)).
Defined.

End InMemoryFlow.

(** ** Service cache: clearing, and slots shared between methods *)

Module ServiceCacheShared.
Import ServiceCache.

Section shared.

Context {V Args Backend : Type}.

(** X5. [ServiceCache.clear] keeps the slots that are declared and empties
    each of them, so that after it a wrapped method runs again even when its
    slot was filled: its call is the method's own call followed by the
    filling of the slot. *)
Theorem clear_forces_execution (attr : string)
    (fn : @Method V Args Backend) (args : Args)
    (c : gmap string (option V)) (b : Backend) :
  is_Some (c !! attr) →
  dom (clear c) = dom c
  ∧ (∀ a, is_Some (c !! a) → clear c !! a = Some None)
  ∧ from_cache_or_execute attr fn args {| cache := Some (clear c); backend := b |}
    = match fn args {| cache := Some (clear c); backend := b |} with
      | (Return value, self') => populate attr value self'
      | (Raise e, self') => (Raise e, self')
      end.
Proof.
  intros Hdecl.
  assert (∀ a, is_Some (c !! a) → clear c !! a = Some None) as Hclear.
  { intros a [x Hx]. unfold clear. by rewrite lookup_fmap, Hx. }
  split; [|split; [done|]].
  - unfold clear. apply dom_fmap_L.
  - apply from_cache_miss. unfold slot. cbn. by apply Hclear.
Qed.

(** X6. The slot, not the method, is what is cached: once a method wrapped
    under [attr] has returned a value other than [None], a call of any other
    method wrapped under the same [attr], with any arguments, returns that
    value and does not run. *)
Theorem slot_shared_between_methods (attr : string)
    (fn1 fn2 : @Method V Args Backend) (args1 args2 : Args) (v : V)
    (self self' : Service) :
  slot attr self = Some None →
  fn1 args1 self = (Return (Some v), self') →
  is_Some (slot attr self') →
  let after := (from_cache_or_execute attr fn1 args1 self).2 in
  (from_cache_or_execute attr fn1 args1 self).1 = Return (Some v)
  ∧ from_cache_or_execute attr fn2 args2 after = (Return (Some v), after).
Proof.
  intros Hslot Hfn Hdecl after.
  destruct (slot_populate attr (Some v) self' Hdecl) as [Hpop Hafter].
  assert (from_cache_or_execute attr fn1 args1 self
          = populate attr (Some v) self') as E
    by (by rewrite (from_cache_miss attr fn1 args1 self Hslot), Hfn).
  unfold after. rewrite E. split; [by rewrite Hpop|].
  by apply from_cache_hit.
Qed.

End shared.

Lemma clear_forces_execution_witness :
  (from_cache_or_execute "value" counting 7
     {| cache := Some (clear {["value" := Some 203]}); backend := 3%nat |}).1
  = Return (Some 307).
Proof.
  destruct (clear_forces_execution "value" counting 7
              {["value" := Some 203]} 3%nat
              ltac:(by eexists)) as (_ & _ & ->).
  reflexivity.
Defined.

(** A second method under the same slot gets the first one's value. *)
Lemma slot_shared_between_methods_witness :
  let other : @Method Z Z nat := λ args self, (Return (Some (- args)), self) in
  let after := (from_cache_or_execute "value" counting 7
                  {| cache := Some {["value" := None]}; backend := 3%nat |}).2 in
  from_cache_or_execute "value" other 1 after = (Return (Some 307), after).
Proof.
  exact (proj2 (slot_shared_between_methods "value" counting
                  (λ args self, (Return (Some (- args)), self)) 7 1 307
                  {| cache := Some {["value" := None]}; backend := 3%nat |}
                  {| cache := Some {["value" := None]}; backend := 4%nat |}
                  eq_refl eq_refl ltac:(by eexists))).
Defined.

End ServiceCacheShared.

(** ** Subnets repository: the delete guard and IPv4-mapped lookups *)

Module SubnetsGuard.
Import Net Subnets.

Lemma filter_nil_iff {A} (P : A → Prop) `{∀ x, Decision (P x)} (l : list A) :
  filter P l = [] ↔ ∀ x, x ∈ l → ¬ P x.
Proof.
  split.
  - intros E x Hx HP. assert (x ∈ filter P l) as Hin
      by (by apply list_elem_of_filter).
    rewrite E in Hin. by apply elem_of_nil in Hin.
  - intros Hall. destruct (filter P l) as [|y k] eqn:E; [done|].
    assert (y ∈ filter P l) as Hin by (rewrite E; left).
    apply list_elem_of_filter in Hin as [HP Hy]. by destruct (Hall y Hy).
Qed.

(** X7. [_pre_delete_checks] lets a delete through exactly when no subnet of
    the table, whichever it is, serves a dynamic range on a VLAN with DHCP
    on, or when the query selects no subnet. *)
Theorem pre_delete_checks_pass_iff (db : Database) (query : QuerySpec) :
  _pre_delete_checks db query = Return () ↔
  (¬ ∃ s, s ∈ SubnetTable db ∧ serves_dynamic_range db s)
  ∨ (∀ s, s ∈ SubnetTable db → where_ query s = false).
Proof.
  unfold _pre_delete_checks.
  assert (pre_delete_stmt db query = [] ↔
          (¬ ∃ s, s ∈ SubnetTable db ∧ serves_dynamic_range db s)
          ∨ (∀ s, s ∈ SubnetTable db → where_ query s = false)) as Hnil.
  { unfold pre_delete_stmt. rewrite filter_nil_iff.
    rewrite <- vlan_dhcp_on_and_dynamic_ip_range_true.
    destruct (vlan_dhcp_on_and_dynamic_ip_range db); cbn.
    - split.
      + intros Hall. right. intros s Hs. specialize (Hall s Hs).
        by destruct (where_ query s).
      + intros [Hno|Hall]; [done|]. intros s Hs. rewrite (Hall s Hs). done.
    - split; [by left|]. intros _ s _. done. }
  destruct (pre_delete_stmt db query) as [|s1 [|s2 rest]].
  - split; [intros _; by apply Hnil|done].
  - split; [done|]. intros H. by apply Hnil in H.
  - split; [done|]. intros H. by apply Hnil in H.
Qed.

(** X8. A subnet that itself serves a dynamic range on a VLAN with DHCP on
    is not deleted by [delete_one], whatever query selects it alone: the
    call raises the validation error of type PRECONDITION_FAILED and the
    tables are as before. *)
Theorem serving_subnet_is_not_deleted (db : Database) (query : QuerySpec)
    (S : SubnetRow) :
  filter (λ s, where_ query s = true) (SubnetTable db) = [S] →
  serves_dynamic_range db S →
  delete_one db query
  = (Raise (ValidationException
              [mkDetail PRECONDITION_FAILED pre_delete_message]), db).
Proof.
  intros Hone Hserves.
  assert (S ∈ SubnetTable db) as HS.
  { assert (S ∈ [S]) as Hin by left. rewrite <- Hone in Hin.
    by apply list_elem_of_filter in Hin as [_ ?]. }
  assert (vlan_dhcp_on_and_dynamic_ip_range db = true) as Hex
    by (apply vlan_dhcp_on_and_dynamic_ip_range_true; eauto).
  unfold delete_one, _pre_delete_checks, pre_delete_stmt.
  rewrite Hex. cbn [andb]. by rewrite Hone.
Qed.

(** X9. Each remedy the error message names opens the guard when it is
    applied to the whole database: with DHCP off on every VLAN, or with no
    IP range of type dynamic left, every delete passes the checks. *)
Theorem pre_delete_checks_pass_after_remedy (db : Database) (query : QuerySpec) :
  (∀ v, v ∈ VlanTable db → dhcp_on v = false)
  ∨ (∀ r, r ∈ IPRangeTable db → range_type r ≠ dynamic) →
  _pre_delete_checks db query = Return ().
Proof.
  intros Hremedy. apply pre_delete_checks_pass_iff. left.
  intros (s & _ & v & r & Hv & Hr & _ & Hd & _ & Ht).
  destruct Hremedy as [Hoff|Hnodyn].
  - rewrite (Hoff v Hv) in Hd. done.
  - by apply (Hnodyn r Hr).
Qed.

Lemma is_ipv4_mapped_of_ipv4 (v : Z) :
  0 <= v < 2 ^ 32 → is_ipv4_mapped (IPv6 (0xFFFF00000000 + v)) = true.
Proof.
  intros Hv. cbn. apply Z.eqb_eq.
  rewrite Z.shiftr_div_pow2 by lia.
  change 281470681743360 with (65535 * 2 ^ 32).
  rewrite Z.add_comm, Z.div_add by lia.
  rewrite Z.div_small by lia. done.
Qed.

(** X10. An IPv4 address given in its IPv4-mapped IPv6 form
    ([::ffff:a.b.c.d]) is looked up as the IPv4 address itself:
    [find_best_subnet_for_ip] returns the same subnet for both. *)
Theorem find_best_subnet_for_ip_mapped (db : Database) (v : Z) :
  0 <= v < 2 ^ 32 →
  find_best_subnet_for_ip db (IPv6 (0xFFFF00000000 + v))
  = find_best_subnet_for_ip db (IPv4 v).
Proof.
  intros Hv. unfold find_best_subnet_for_ip.
  rewrite !lookup_address_total.
  rewrite (is_ipv4_mapped_of_ipv4 v Hv). cbn [is_ipv4_mapped value].
  by replace (281470681743360 + v - 281470681743360) with v by lia.
Qed.

Lemma pre_delete_checks_pass_iff_witness :
  _pre_delete_checks guard_db (with_id 3) = Return ().
Proof.
  apply (proj2 (pre_delete_checks_pass_iff guard_db (with_id 3))).
  right. intros s Hs.
  apply elem_of_cons in Hs as [->|Hs]; [reflexivity|].
  apply list_elem_of_singleton in Hs as ->. reflexivity.
Defined.

Lemma serving_subnet_is_not_deleted_witness :
  delete_one guard_db (with_id 1)
  = (Raise (ValidationException
              [mkDetail PRECONDITION_FAILED pre_delete_message]), guard_db).
Proof.
  apply (serving_subnet_is_not_deleted guard_db (with_id 1)
           (mkSubnet 1 (mkNetwork (IPv4 (quad 10 0 0 0)) 24) 10) eq_refl).
  exists (mkVlan 10 true 0),
    (mkIPRange 1 dynamic 1 (IPv4 (quad 10 0 0 10)) (IPv4 (quad 10 0 0 20))).
  repeat split; by (left || reflexivity).
Defined.

(** [guard_db] with DHCP turned off on VLAN 10: subnet 2 can be deleted. *)
Lemma pre_delete_checks_pass_after_remedy_witness :
  _pre_delete_checks
    {| SubnetTable := SubnetTable guard_db;
       VlanTable := [ mkVlan 10 false 0; mkVlan 20 false 0 ];
       IPRangeTable := IPRangeTable guard_db |} (with_id 2) = Return ().
Proof.
  apply pre_delete_checks_pass_after_remedy. left. intros v Hv.
  apply elem_of_cons in Hv as [->|Hv]; [reflexivity|].
  apply list_elem_of_singleton in Hv as ->. reflexivity.
Defined.

Lemma find_best_subnet_for_ip_mapped_witness :
  find_best_subnet_for_ip example_db (IPv6 (0xFFFF00000000 + quad 10 0 0 5))
  = find_best_subnet_for_ip example_db (IPv4 (quad 10 0 0 5)).
Proof.
  apply find_best_subnet_for_ip_mapped. split; by vm_compute.
Defined.

End SubnetsGuard.

(** ** Subnet resource builder *)

Module SubnetResourceBuilder.

(** [str.replace("0x", "00:")]: every occurrence, left to right, without
    overlap. *)
Fixpoint replace_0x (s : string) : string :=
  match s with
  | String "0"%char (String "x"%char rest) => "00:" +:+ replace_0x rest
  | String c rest => String c (replace_0x rest)
  | EmptyString => EmptyString
  end.

Section builder.

(** The boot methods of [maascommon.bootmethods] are not among the sources:
    [BootMethod] is any type with a [name], an [arch_octet] and a
    [path_prefix_http], read here for their truth value as the code does,
    and [find_boot_method_by_arch_or_octet] any lookup. *)
Context {BootMethod : Type}.
Variable name : BootMethod → string.
Variable arch_octet : BootMethod → bool.
Variable path_prefix_http : BootMethod → bool.
Variable find_boot_method_by_arch_or_octet :
  string → string → option BootMethod.

Definition unknown_boot_architecture (disabled_arch : string) : Exception :=
  ValidationException
    [mkDetail INVALID_ARGUMENT_VIOLATION_TYPE
              ("Unkown boot architecture " +:+ disabled_arch)].

(** The loop of [with_disabled_boot_architectures], from the names
    collected so far. *)
Fixpoint collect_boot_method_names (disabled_boot_architectures : list string)
    (disabled_boot_method_names : list string) : Outcome (list string) :=
  match disabled_boot_architectures with
  | [] => Return disabled_boot_method_names
  | disabled_arch :: rest =>
      match find_boot_method_by_arch_or_octet disabled_arch
              (replace_0x disabled_arch) with
      | None => Raise (unknown_boot_architecture disabled_arch)
      | Some boot_method =>
          if negb (arch_octet boot_method)
             && negb (path_prefix_http boot_method)
          then Raise (unknown_boot_architecture disabled_arch)
          else collect_boot_method_names rest
                 (disabled_boot_method_names ++ [name boot_method])
      end
  end.

(** [SubnetResourceBuilder.with_disabled_boot_architectures]: the value it
    sets for the column [disabled_boot_architectures], or the error it
    raises. *)
Definition with_disabled_boot_architectures
    (disabled_boot_architectures : list string) : Outcome (list string) :=
  collect_boot_method_names disabled_boot_architectures [].

(** [SubnetResourceBuilder.with_description]: the value it sets. *)
Definition with_description (description : option string) : string :=
  match description with
  | None => ""
  | Some d => d
  end.

(** An architecture the builder accepts, with the name it stores for it. *)
Definition resolves_to (disabled_arch : string) (stored : string) : Prop :=
  ∃ boot_method,
    find_boot_method_by_arch_or_octet disabled_arch (replace_0x disabled_arch)
      = Some boot_method
    ∧ (arch_octet boot_method = true ∨ path_prefix_http boot_method = true)
    ∧ name boot_method = stored.

Lemma collect_boot_method_names_spec (archs acc : list string) :
  match collect_boot_method_names archs acc with
  | Return names =>
      ∃ stored, names = acc ++ stored ∧ Forall2 resolves_to archs stored
  | Raise e =>
      ∃ accepted rejected rest stored,
        archs = accepted ++ rejected :: rest
        ∧ Forall2 resolves_to accepted stored
        ∧ (¬ ∃ n, resolves_to rejected n)
        ∧ e = unknown_boot_architecture rejected
  end.
Proof.
  revert acc. induction archs as [|a archs IH]; intros acc; cbn.
  - exists []. by rewrite app_nil_r.
  - destruct (find_boot_method_by_arch_or_octet a (replace_0x a))
      as [bm|] eqn:Hfind.
    + destruct (arch_octet bm) eqn:Ho; cbn [negb andb].
      * specialize (IH (acc ++ [name bm])).
        assert (resolves_to a (name bm)) as Hres
          by (exists bm; split; [done|]; split; [by left|done]).
        destruct (collect_boot_method_names archs (acc ++ [name bm])).
        -- destruct IH as (stored & -> & HF). exists (name bm :: stored).
           split; [by rewrite <- app_assoc|by constructor].
        -- destruct IH as (accepted & rejected & rest & stored & -> & HF & Hno & ->).
           exists (a :: accepted), rejected, rest, (name bm :: stored).
           split; [done|]. split; [by constructor|done].
      * destruct (path_prefix_http bm) eqn:Hp; cbn [negb].
        -- specialize (IH (acc ++ [name bm])).
           assert (resolves_to a (name bm)) as Hres
             by (exists bm; split; [done|]; split; [by right|done]).
           destruct (collect_boot_method_names archs (acc ++ [name bm])).
           ++ destruct IH as (stored & -> & HF). exists (name bm :: stored).
              split; [by rewrite <- app_assoc|by constructor].
           ++ destruct IH as (accepted & rejected & rest & stored & -> & HF & Hno & ->).
              exists (a :: accepted), rejected, rest, (name bm :: stored).
              split; [done|]. split; [by constructor|done].
        -- exists [], a, archs, []. split; [done|]. split; [constructor|].
           split; [|done]. intros (n & bm' & Hf & [H|H] & _);
             rewrite Hfind in Hf; simplify_eq; congruence.
    + exists [], a, archs, []. split; [done|]. split; [constructor|].
      split; [|done]. intros (n & bm' & Hf & _). congruence.
Qed.

(** X11. [with_disabled_boot_architectures] stores all or nothing: either
    every architecture of the list resolves to a boot method that has an
    [arch_octet] or a [path_prefix_http], and the names of those methods are
    stored in the order given, one for each; or the validation error is
    raised for the first architecture that does not, and nothing is
    stored. *)
Theorem with_disabled_boot_architectures_all_or_nothing (archs : list string) :
  match with_disabled_boot_architectures archs with
  | Return names => Forall2 resolves_to archs names
  | Raise e =>
      ∃ accepted rejected rest,
        archs = accepted ++ rejected :: rest
        ∧ Forall (λ a, ∃ n, resolves_to a n) accepted
        ∧ (¬ ∃ n, resolves_to rejected n)
        ∧ e = unknown_boot_architecture rejected
  end.
Proof.
  unfold with_disabled_boot_architectures.
  pose proof (collect_boot_method_names_spec archs []) as H.
  destruct (collect_boot_method_names archs []) as [names|e].
  - by destruct H as (stored & -> & HF).
  - destruct H as (accepted & rejected & rest & stored & -> & HF & Hno & ->).
    exists accepted, rejected, rest. split; [done|]. split; [|done].
    clear -HF. induction HF; constructor; eauto.
Qed.

End builder.

Example replace_0x_examples :
  replace_0x "0x00:07" = "00:00:07" ∧ replace_0x "00x0x" = "000:00:"
  ∧ replace_0x "pxe" = "pxe".
Proof. by vm_compute. Qed.

End SubnetResourceBuilder.

(** ** VLANs repository: what one page holds, and page sizes below one *)

Module VlansPages.
Import Vlans.

(** The condition a token puts on the rows. *)
Definition within (bound : option Z) (row : Vlan) : Prop :=
  match bound with
  | Some b => id row <= b
  | None => True
  end.

Lemma elem_of_ordered_rows (T : list Vlan) (bound : option Z) (row : Vlan) :
  row ∈ ordered_rows T bound ↔ row ∈ T ∧ within bound row.
Proof.
  unfold ordered_rows. rewrite merge_sort_Permutation.
  destruct bound as [b|]; cbn.
  - rewrite list_elem_of_filter. tauto.
  - tauto.
Qed.

Lemma ordered_rows_strict_bound (T : list Vlan) (bound : option Z) :
  NoDup (id <$> T) → StronglySorted strictly_desc (ordered_rows T bound).
Proof.
  intros Hnd. destruct bound as [b|]; [|by apply ordered_rows_strict].
  rewrite ordered_rows_bound by done.
  by apply StronglySorted_filter, ordered_rows_strict.
Qed.

(** The statement binds the number of the token and the limit as 64-bit
    integers: beyond that range the database driver refuses the parameter,
    which [execute] does not model.  What follows is stated within the
    range. *)
Definition int64 (z : Z) : Prop := - 2 ^ 63 <= z < 2 ^ 63.

Definition bound_int64 (bound : option Z) : Prop :=
  match bound with
  | Some b => int64 b
  | None => True
  end.

Section pages.

Variable str : Z → string.
Variable int : string → option Z.

(** X12. With distinct ids and a size of zero or more, a call of [list]
    whose token is absent or parses to a number, the number and the limit
    [size + 1] within the 64-bit range, returns a page: at most [size] rows
    of the table, all within the token's bound, in strictly descending
    order of id.  When [next_token] is given the page is full, [next_token]
    is the id of a row of the table and lies strictly below every id of the
    page; when it is absent the page holds every row within the bound. *)
Theorem list_page_contents (T : list Vlan) (token : option string)
    (bound : option Z) (size : Z) :
  NoDup (id <$> T) → 0 <= size → int64 (size + 1) →
  parses_to int token bound → bound_int64 bound →
  ∃ page,
    list_ int T token size = Return page
    ∧ Z.of_nat (length (items page)) <= size
    ∧ (∀ row, row ∈ items page → row ∈ T ∧ within bound row)
    ∧ StronglySorted strictly_desc (items page)
    ∧ match next_token page with
      | Some key =>
          Z.of_nat (length (items page)) = size
          ∧ (∃ row, row ∈ T ∧ within bound row ∧ id row = key)
          ∧ ∀ row, row ∈ items page → key < id row
      | None => ∀ row, row ∈ T → within bound row → row ∈ items page
      end.
Proof.
  intros Hnd Hsize _ Htok _.
  eexists. split; [by apply list_page|]. cbn [items next_token].
  set (rows := ordered_rows T bound). set (k := Z.to_nat size).
  pose proof (ordered_rows_strict_bound T bound Hnd) as HS. fold rows in HS.
  split; [rewrite length_take; lia|].
  split.
  { intros row Hrow. apply elem_of_ordered_rows.
    by apply (subseteq_take k rows). }
  split.
  { rewrite <- (take_drop k rows) in HS.
    by apply StronglySorted_app in HS as (_ & ? & _). }
  destruct (rows !! k) as [extra|] eqn:Hk; cbn.
  - assert (k < length rows)%nat by (by eapply lookup_lt_Some).
    split; [rewrite length_take; lia|]. split.
    + exists extra.
      assert (extra ∈ rows) as Hin by (by eapply list_elem_of_lookup_2).
      apply elem_of_ordered_rows in Hin as [? ?]. done.
    + intros row Hrow.
      rewrite <- (take_drop_middle rows k extra Hk) in HS.
      apply StronglySorted_app in HS as (Hlt & _ & _).
      apply (Hlt row extra Hrow). left.
  - apply lookup_ge_None in Hk. rewrite take_ge by lia.
    intros row Hrow Hwithin. by apply elem_of_ordered_rows.
Qed.


(** X14. A token that parses to a number within the 64-bit range, at or
    above every id of the table, selects what no token selects: the call
    returns the first page. *)
Theorem list_token_above_all (T : list Vlan) (t : string) (n : Z) (size : Z) :
  int t = Some n → int64 n → int64 (size + 1) →
  (∀ row, row ∈ T → id row <= n) →
  list_ int T (Some t) size = list_ int T None size.
Proof.
  intros Hint _ _ Hall. unfold list_. rewrite Hint.
  unfold execute, ordered_rows.
  by rewrite filter_Forall by (by apply Forall_forall).
Qed.

Hypothesis int_str : ∀ z, int (str z) = Some z.

Lemma iterate_size_zero_stuck (T : list Vlan) (fuel : nat)
    (token : option string) (bound : option Z) :
  parses_to int token bound →
  ordered_rows T bound ≠ [] →
  iterate str int fuel T token 0 = None.
Proof.
  revert token bound. induction fuel as [|fuel IH];
    intros token bound Htok Hrows; [done|].
  cbn [iterate]. rewrite (list_page int T token bound 0) by (done || lia).
  cbn [next_token items].
  destruct (ordered_rows T bound) as [|first rows] eqn:E; [done|].
  change (Z.to_nat 0) with 0%nat. simpl.
  rewrite (IH (Some (str (id first))) (Some (id first))); [done| |].
  - split; [done|apply int_str].
  - assert (first ∈ ordered_rows T (Some (id first))) as Hin.
    { apply elem_of_ordered_rows.
      assert (first ∈ ordered_rows T bound) as Hf by (rewrite E; left).
      apply elem_of_ordered_rows in Hf as [? _]. split; [done|]. cbn. lia. }
    intros Hnil. rewrite Hnil in Hin. by apply elem_of_nil in Hin.
Qed.

(** X15. With a size of zero the client that follows [next_token] never
    finishes on a table that has a row: every page is empty and names the
    first row again, whatever the number of calls allowed. *)
Theorem iterate_size_zero_never_ends (T : list Vlan) (fuel : nat) :
  T ≠ [] →
  list_ int T None 0
  = Return {| items := []; next_token := id <$> head (ordered_rows T None) |}
  ∧ is_Some (head (ordered_rows T None))
  ∧ iterate str int fuel T None 0 = None.
Proof.
  intros Hne.
  assert (ordered_rows T None ≠ []) as Hrows.
  { intros Hnil. apply Hne. apply Permutation_nil_r.
    by rewrite <- (ordered_rows_Permutation T), Hnil. }
  split; [|split].
  - rewrite (list_page int T None None 0) by (done || lia).
    cbn [Z.to_nat take]. by rewrite head_lookup.
  - by destruct (ordered_rows T None).
  - by apply (iterate_size_zero_stuck T fuel None None).
Qed.

End pages.

Lemma list_page_contents_witness :
  ∃ page,
    list_ decimal_int five_vlans (Some "3") 2 = Return page
    ∧ items page = [mkVlan 3 30 0; mkVlan 2 20 0]
    ∧ next_token page = Some 1.
Proof.
  assert (NoDup (id <$> five_vlans)) as Hnd
    by (apply (bool_decide_unpack (NoDup (id <$> five_vlans))); vm_compute;
        exact I).
  destruct (list_page_contents decimal_int five_vlans (Some "3") (Some 3) 2
              Hnd ltac:(lia) ltac:(unfold int64; lia)
              ltac:(split; [discriminate|reflexivity])
              ltac:(unfold bound_int64, int64; lia))
    as (page & Hpage & _).
  exists page. split; [exact Hpage|].
  vm_compute in Hpage. injection Hpage as <-. split; reflexivity.
Defined.


Lemma list_token_above_all_witness :
  list_ decimal_int five_vlans (Some "9") 2 = list_ decimal_int five_vlans None 2.
Proof.
  apply (list_token_above_all decimal_int five_vlans "9" 9 2 eq_refl
           ltac:(unfold int64; lia) ltac:(unfold int64; lia)).
  intros row Hrow. unfold five_vlans in Hrow.
  repeat (apply elem_of_cons in Hrow as [->|Hrow]; [cbn; lia|]).
  by apply elem_of_nil in Hrow.
Defined.

Lemma iterate_size_zero_never_ends_witness :
  iterate decimal_str decimal_int 100 five_vlans None 0 = None.
Proof.
  exact (proj2 (proj2 (iterate_size_zero_never_ends decimal_str decimal_int
                         decimal_int_str five_vlans 100 ltac:(discriminate)))).
Defined.

End VlansPages.

(** ** IP ranges repository *)

Module IPRanges.
Import Net Subnets.

(** [netaddr.IPRange(start, end)]: the end is read in the family of the
    start, and a start above the end is refused; both raise
    [AddrFormatError] ([None]). *)
Definition IPRange (start end_ : IPAddress) : option (IPAddress * IPAddress) :=
  if (version start =? version end_) && (value start <=? value end_)
  then Some (start, end_) else None.

(** [ip in netaddr.IPRange]: same family, and the value between the two
    ends, both included. *)
Definition in_range (ip : IPAddress) (range : IPAddress * IPAddress) : bool :=
  (version ip =? version (range.1))
  && (value (range.1) <=? value ip) && (value ip <=? value (range.2)).

(** The rows of [SELECT iprange.* FROM iprange JOIN subnet
    ON subnet.id = iprange.subnet_id WHERE subnet.id = :id]. *)
Definition ranges_of_subnet (db : Database) (id : Z) : list IPRangeRow :=
  r ← IPRangeTable db;
  s ← SubnetTable db;
  if (subnet_pk s =? subnet_id r) && (subnet_pk s =? id) then [r] else [].

(** The loop of [get_dynamic_range_for_ip]; the outer option is [None] when
    building a range raises. *)
Fixpoint first_range_with (netaddr_ip : IPAddress) (ipranges : list IPRangeRow)
  : option (option IPRangeRow) :=
  match ipranges with
  | [] => Some None
  | iprange :: rest =>
      match IPRange (start_ip iprange) (end_ip iprange) with
      | None => None
      | Some range =>
          if in_range netaddr_ip range then Some (Some iprange)
          else first_range_with netaddr_ip rest
      end
  end.

(** [IPRangesRepository.get_dynamic_range_for_ip]. *)
Definition get_dynamic_range_for_ip (db : Database) (subnet : SubnetRow)
    (ip : IPAddress) : option (option IPRangeRow) :=
  first_range_with ip (ranges_of_subnet db (subnet_pk subnet)).

(** The range is well formed, and holds the address. *)
Definition well_formed (r : IPRangeRow) : Prop :=
  version (start_ip r) = version (end_ip r)
  ∧ value (start_ip r) <= value (end_ip r).

Definition covers (r : IPRangeRow) (ip : IPAddress) : Prop :=
  version ip = version (start_ip r)
  ∧ value (start_ip r) <= value ip <= value (end_ip r).

(** The same database with the type of every range replaced. *)
Definition with_type (type : IPRangeType) (r : IPRangeRow) : IPRangeRow :=
  {| iprange_pk := iprange_pk r; range_type := type;
     subnet_id := subnet_id r; start_ip := start_ip r; end_ip := end_ip r |}.

Definition retyped (type : IPRangeRow → IPRangeType) (db : Database)
  : Database :=
  {| SubnetTable := SubnetTable db; VlanTable := VlanTable db;
     IPRangeTable := (λ r, with_type (type r) r) <$> IPRangeTable db |}.

Lemma IPRange_Some (r : IPRangeRow) (range : IPAddress * IPAddress) :
  IPRange (start_ip r) (end_ip r) = Some range →
  well_formed r ∧ range = (start_ip r, end_ip r).
Proof.
  unfold IPRange, well_formed. destruct (_ && _) eqn:E; [|done].
  intros [= <-]. apply andb_prop in E as [E1 E2].
  apply Z.eqb_eq in E1. apply Z.leb_le in E2. done.
Qed.

Lemma IPRange_None (r : IPRangeRow) :
  IPRange (start_ip r) (end_ip r) = None → ¬ well_formed r.
Proof.
  unfold IPRange, well_formed. destruct (_ && _) eqn:E; [done|].
  intros _ [H1 H2]. apply Z.eqb_eq in H1. apply Z.leb_le in H2.
  by rewrite H1, H2 in E.
Qed.

Lemma in_range_covers (r : IPRangeRow) (ip : IPAddress) :
  in_range ip (start_ip r, end_ip r) = true ↔ covers r ip.
Proof.
  unfold in_range, covers. cbn.
  rewrite !andb_true_iff, Z.eqb_eq, !Z.leb_le. tauto.
Qed.

Lemma first_range_with_spec (ip : IPAddress) (rows : list IPRangeRow) :
  match first_range_with ip rows with
  | Some (Some found) =>
      ∃ before after,
        rows = before ++ found :: after
        ∧ Forall (λ r, well_formed r ∧ ¬ covers r ip) before
        ∧ well_formed found ∧ covers found ip
  | Some None => Forall (λ r, well_formed r ∧ ¬ covers r ip) rows
  | None =>
      ∃ before bad after,
        rows = before ++ bad :: after
        ∧ Forall (λ r, well_formed r ∧ ¬ covers r ip) before
        ∧ ¬ well_formed bad
  end.
Proof.
  induction rows as [|r rows IH]; cbn; [constructor|].
  destruct (IPRange (start_ip r) (end_ip r)) as [range|] eqn:E.
  - apply IPRange_Some in E as [Hwf ->].
    destruct (in_range ip (start_ip r, end_ip r)) eqn:Hin.
    + apply in_range_covers in Hin. exists [], rows.
      split; [done|]. split; [constructor|]. by split.
    + assert (¬ covers r ip) as Hno
        by (intros Hc; apply in_range_covers in Hc; congruence).
      destruct (first_range_with ip rows) as [[found|]|].
      * destruct IH as (before & after & -> & HF & Hw & Hc).
        exists (r :: before), after. split; [done|]. split; [|done].
        by constructor.
      * by constructor.
      * destruct IH as (before & bad & after & -> & HF & Hbad).
        exists (r :: before), bad, after. split; [done|]. split; [|done].
        by constructor.
  - apply IPRange_None in E. exists [], r, rows.
    split; [done|]. split; [constructor|done].
Qed.

Lemma elem_of_ranges_of_subnet (db : Database) (id : Z) (r : IPRangeRow) :
  r ∈ ranges_of_subnet db id ↔
  r ∈ IPRangeTable db ∧ subnet_id r = id
  ∧ ∃ s, s ∈ SubnetTable db ∧ subnet_pk s = id.
Proof.
  unfold ranges_of_subnet. rewrite list_elem_of_bind. split.
  - intros (r' & Hin & Hr').
    apply list_elem_of_bind in Hin as (s & Hin & Hs).
    destruct (_ && _) eqn:E in Hin; [|by apply elem_of_nil in Hin].
    apply list_elem_of_singleton in Hin as ->.
    apply andb_prop in E as [E1 E2].
    apply Z.eqb_eq in E1. apply Z.eqb_eq in E2.
    split; [done|]. split; [lia|]. by exists s.
  - intros (Hr & Hid & s & Hs & Hpk). exists r. split; [|done].
    apply list_elem_of_bind. exists s. split; [|done].
    rewrite Hid, Hpk, Z.eqb_refl. cbn. by apply list_elem_of_singleton.
Qed.

(** X16. When the ranges of the subnet are well formed,
    [get_dynamic_range_for_ip] returns the first range of the subnet, in
    the order of the rows, that holds the address between its two ends,
    both included, and returns none exactly when no range of the subnet
    holds it. *)
Theorem get_dynamic_range_for_ip_first (db : Database) (subnet : SubnetRow)
    (ip : IPAddress) :
  (∀ r, r ∈ ranges_of_subnet db (subnet_pk subnet) → well_formed r) →
  ∃ result,
    get_dynamic_range_for_ip db subnet ip = Some result
    ∧ match result with
      | Some found =>
          found ∈ IPRangeTable db
          ∧ subnet_id found = subnet_pk subnet
          ∧ covers found ip
          ∧ ∃ before after,
              ranges_of_subnet db (subnet_pk subnet) = before ++ found :: after
              ∧ ∀ r, r ∈ before → ¬ covers r ip
      | None =>
          ∀ r, r ∈ IPRangeTable db → subnet_id r = subnet_pk subnet →
               (∃ s, s ∈ SubnetTable db ∧ subnet_pk s = subnet_pk subnet) →
               ¬ covers r ip
      end.
Proof.
  intros Hwf. unfold get_dynamic_range_for_ip.
  pose proof (first_range_with_spec ip (ranges_of_subnet db (subnet_pk subnet)))
    as H.
  destruct (first_range_with ip _) as [[found|]|].
  - eexists. split; [done|].
    destruct H as (before & after & E & HF & _ & Hc).
    assert (found ∈ ranges_of_subnet db (subnet_pk subnet)) as Hin
      by (rewrite E; set_solver).
    apply elem_of_ranges_of_subnet in Hin as (? & ? & _).
    split; [done|]. split; [done|]. split; [done|].
    exists before, after. split; [done|].
    intros r Hr. rewrite Forall_forall in HF. by apply HF.
  - eexists. split; [done|]. intros r Hr Hid Hs.
    rewrite Forall_forall in H. apply H.
    apply elem_of_ranges_of_subnet. done.
  - destruct H as (before & bad & after & E & _ & Hbad).
    destruct Hbad. apply Hwf. rewrite E. set_solver.
Qed.

Lemma ranges_of_subnet_retyped (type : IPRangeRow → IPRangeType)
    (db : Database) (id : Z) :
  ranges_of_subnet (retyped type db) id
  = (λ r, with_type (type r) r) <$> ranges_of_subnet db id.
Proof.
  unfold ranges_of_subnet, retyped. cbn [IPRangeTable SubnetTable].
  induction (IPRangeTable db) as [|r rows IH]; [done|].
  rewrite fmap_cons, !bind_cons, fmap_app, IH.
  apply (f_equal (λ l, l ++ _)). cbn [subnet_id with_type]. clear IH.
  induction (SubnetTable db) as [|s ss IHs]; [done|].
  rewrite !bind_cons, fmap_app, IHs.
  apply (f_equal (λ l, l ++ _)). by destruct (_ && _).
Qed.

(** X17. The type of a range is never read: whatever the types of the
    ranges are replaced by, [get_dynamic_range_for_ip] finds the same range,
    so a range that is not dynamic is returned as readily as a dynamic
    one. *)
Theorem get_dynamic_range_for_ip_ignores_type (type : IPRangeRow → IPRangeType)
    (db : Database) (subnet : SubnetRow) (ip : IPAddress) :
  get_dynamic_range_for_ip (retyped type db) subnet ip
  = option_map (option_map (λ r, with_type (type r) r))
      (get_dynamic_range_for_ip db subnet ip).
Proof.
  unfold get_dynamic_range_for_ip. rewrite ranges_of_subnet_retyped.
  induction (ranges_of_subnet db (subnet_pk subnet)) as [|r rows IH]; [done|].
  rewrite fmap_cons. cbn [first_range_with start_ip end_ip with_type].
  destruct (IPRange (start_ip r) (end_ip r)) as [range|]; [|done].
  destruct (in_range ip range); [done|exact IH].
Qed.

(** The ranges of the specification's example, on subnet 1. *)
Definition ranges_db : Database :=
  {| SubnetTable := [ mkSubnet 1 (mkNetwork (IPv4 (quad 10 0 0 0)) 24) 10 ];
     VlanTable := [ mkVlan 10 true 0 ];
     IPRangeTable :=
       [ mkIPRange 1 dynamic 1 (IPv4 (quad 10 0 0 10)) (IPv4 (quad 10 0 0 20));
         mkIPRange 2 reserved 1 (IPv4 (quad 10 0 0 30)) (IPv4 (quad 10 0 0 40)) ] |}.

Example get_dynamic_range_for_ip_example :
  let subnet := mkSubnet 1 (mkNetwork (IPv4 (quad 10 0 0 0)) 24) 10 in
  iprange_pk <$> (get_dynamic_range_for_ip ranges_db subnet
                    (IPv4 (quad 10 0 0 15)) ≫= id) = Some 1
  ∧ get_dynamic_range_for_ip ranges_db subnet (IPv4 (quad 10 0 0 25))
    = Some None
  ∧ iprange_pk <$> (get_dynamic_range_for_ip ranges_db subnet
                      (IPv4 (quad 10 0 0 35)) ≫= id) = Some 2.
Proof. by vm_compute. Qed.

Lemma get_dynamic_range_for_ip_first_witness :
  ∃ result,
    get_dynamic_range_for_ip ranges_db
      (mkSubnet 1 (mkNetwork (IPv4 (quad 10 0 0 0)) 24) 10)
      (IPv4 (quad 10 0 0 35)) = Some result
    ∧ iprange_pk <$> result = Some 2.
Proof.
  destruct (get_dynamic_range_for_ip_first ranges_db
              (mkSubnet 1 (mkNetwork (IPv4 (quad 10 0 0 0)) 24) 10)
              (IPv4 (quad 10 0 0 35))) as (result & Hres & _).
  { intros r Hr. vm_compute in Hr.
    repeat (apply elem_of_cons in Hr as [->|Hr]; [by vm_compute|]).
    by apply elem_of_nil in Hr. }
  exists result. split; [exact Hres|].
  vm_compute in Hres. injection Hres as <-. reflexivity.
Defined.

End IPRanges.

(** ** File-backed ids (provisioningserver/utils/env.py) *)

Module FileBackedID.

(** A Python [str] is taken with code points below 256, one to a
    character. [str.strip] removes the characters for which [str.isspace]
    holds; below 256 these are the following. *)
Definition isspace (c : ascii) : bool :=
  match N_of_ascii c with
  | 9 | 10 | 11 | 12 | 13 | 28 | 29 | 30 | 31 | 32 | 133 | 160 => true
  | _ => false
  end%N.

Fixpoint lstrip (s : string) : string :=
  match s with
  | String c rest => if isspace c then lstrip rest else s
  | EmptyString => EmptyString
  end.

Fixpoint rstrip (s : string) : string :=
  match s with
  | String c rest =>
      match rstrip rest with
      | EmptyString => if isspace c then EmptyString else String c EmptyString
      | kept => String c kept
      end
  | EmptyString => EmptyString
  end.

(** [str.strip()]. *)
Definition strip (s : string) : string := rstrip (lstrip s).

(** The truth value of a [str] or [None]. *)
Definition truthy (value : option string) : bool :=
  match value with
  | Some (String _ _) => true
  | _ => false
  end.

(** [FileBackedID._normalise_value]. *)
Definition _normalise_value (value : option string) : option string :=
  let value := if truthy value then strip <$> value else value in
  if truthy value then value else None.

(** The ascii codec, for [str.encode("ascii")] and
    [read_text(encoding="ascii")]: every character below 128, or
    [UnicodeEncodeError] / [UnicodeDecodeError]. *)
Fixpoint is_ascii (s : string) : bool :=
  match s with
  | String c rest => (N_of_ascii c <? 128)%N && is_ascii rest
  | EmptyString => true
  end.

Inductive Error : Type := UnicodeEncodeError | UnicodeDecodeError.

Inductive Result (A : Type) : Type :=
| Ok (a : A)
| Fail (e : Error).
Arguments Ok {A} a.
Arguments Fail {A} e.

(** A [FileBackedID] and the file at its path: [file] is the content of the
    file, [None] when there is no file; [_value] is the attribute of the
    object.  The parent directory is taken to exist or to be creatable, and
    [atomic_write] and [atomic_delete] (not among the sources) to replace
    and to remove the file. *)
Record State : Type := mkState {
  file : option string;
  _value : option string
}.

(** [FileBackedID.__init__]: nothing cached. *)
Definition init (file : option string) : State :=
  {| file := file; _value := None |}.

(** What reading in text mode makes of the line ends: [Path.read_text]
    opens the file with universal newlines, so that a carriage return, alone
    or before a line feed, is read as one line feed. *)
Fixpoint universal_newlines (s : string) : string :=
  match s with
  | String "013"%char (String "010"%char rest) =>
      String "010"%char (universal_newlines rest)
  | String "013"%char rest => String "010"%char (universal_newlines rest)
  | String c rest => String c (universal_newlines rest)
  | EmptyString => EmptyString
  end.

(** [Path.read_text(encoding="ascii")]: the bytes decoded, then the line
    ends translated; [None] for [UnicodeDecodeError]. *)
Definition read_text (content : string) : option string :=
  if is_ascii content then Some (universal_newlines content) else None.

(** [FileBackedID.get]. *)
Definition get (st : State) : Result (option string) * State :=
  if negb (truthy (_value st)) then
    match file st with
    | None => (Ok None, st)
    | Some content =>
        match read_text content with
        | Some text =>
            let value := _normalise_value (Some text) in
            (Ok value, {| file := file st; _value := value |})
        | None => (Fail UnicodeDecodeError, st)
        end
    end
  else (Ok (_value st), st).

(** [FileBackedID.set]. *)
Definition set (value : option string) (st : State) : Result unit * State :=
  let value := _normalise_value value in
  match value with
  | None => (Ok (), {| file := None; _value := None |})
  | Some v =>
      if is_ascii v then (Ok (), {| file := Some v; _value := Some v |})
      else (Fail UnicodeEncodeError, st)
  end.

(** *** Facts about [strip] *)

Definition first_char (s : string) : option ascii :=
  match s with String c _ => Some c | EmptyString => None end.

Fixpoint last_char (s : string) : option ascii :=
  match s with
  | String c EmptyString => Some c
  | String _ rest => last_char rest
  | EmptyString => None
  end.

Lemma lstrip_first (s : string) (c : ascii) :
  first_char (lstrip s) = Some c → isspace c = false.
Proof.
  induction s as [|a s IH]; cbn; [done|].
  destruct (isspace a) eqn:E; [done|]. cbn. by intros [= <-].
Qed.

Lemma lstrip_fixed (s : string) :
  (∀ c, first_char s = Some c → isspace c = false) → lstrip s = s.
Proof.
  destruct s as [|a s]; cbn; [done|]. intros H. by rewrite (H a).
Qed.

Lemma rstrip_first (s : string) (c : ascii) :
  first_char (rstrip s) = Some c → first_char s = Some c.
Proof.
  destruct s as [|a s]; cbn; [done|].
  destruct (rstrip s); [destruct (isspace a)|]; cbn; congruence.
Qed.

Lemma rstrip_last (s : string) (c : ascii) :
  last_char (rstrip s) = Some c → isspace c = false.
Proof.
  induction s as [|a s IH]; cbn; [done|].
  destruct (rstrip s) as [|b kept] eqn:E.
  - destruct (isspace a) eqn:Ha; cbn; [done|]. by intros [= <-].
  - cbn. exact IH.
Qed.

Lemma rstrip_idemp (s : string) : rstrip (rstrip s) = rstrip s.
Proof.
  induction s as [|a s IH]; cbn; [done|].
  destruct (rstrip s) as [|b kept] eqn:E.
  - destruct (isspace a) eqn:Ha; cbn; [done|]. by rewrite Ha.
  - cbn [rstrip]. fold rstrip. cbn in IH. by rewrite IH.
Qed.

Lemma strip_idemp (s : string) : strip (strip s) = strip s.
Proof.
  unfold strip. rewrite (lstrip_fixed (rstrip (lstrip s))).
  - apply rstrip_idemp.
  - intros c Hc. apply rstrip_first in Hc. by apply (lstrip_first s).
Qed.

Lemma is_ascii_lstrip (s : string) : is_ascii s = true → is_ascii (lstrip s) = true.
Proof.
  induction s as [|a s IH]; cbn; [done|].
  intros [Ha Hs]%andb_prop. destruct (isspace a); [by apply IH|].
  cbn. by rewrite Ha, Hs.
Qed.

Lemma is_ascii_rstrip (s : string) : is_ascii s = true → is_ascii (rstrip s) = true.
Proof.
  induction s as [|a s IH]; cbn; [done|].
  intros [Ha Hs]%andb_prop. specialize (IH Hs).
  destruct (rstrip s); [destruct (isspace a)|]; cbn in *; by rewrite ?Ha, ?IH.
Qed.

Lemma normalise_Some (value : option string) (v : string) :
  _normalise_value value = Some v →
  truthy (Some v) = true ∧ ∃ raw, value = Some raw ∧ v = strip raw.
Proof.
  unfold _normalise_value. destruct value as [[|a raw]|]; [done| |done].
  cbn [truthy fmap option_fmap option_map].
  destruct (strip (String a raw)) as [|b kept] eqn:E; [done|].
  cbn [truthy]. intros [= <-]. split; [done|]. by exists (String a raw).
Qed.

Lemma normalise_fixed (raw : string) (v : string) :
  _normalise_value (Some raw) = Some v → _normalise_value (Some v) = Some v.
Proof.
  intros H. apply normalise_Some in H as (Hv & raw' & [= <-] & ->).
  unfold _normalise_value. rewrite Hv. cbn [fmap option_fmap option_map].
  rewrite strip_idemp. by rewrite Hv.
Qed.

(** Whether the string has a carriage return. *)
Fixpoint has_carriage_return (s : string) : bool :=
  match s with
  | String c rest => (N_of_ascii c =? 13)%N || has_carriage_return rest
  | EmptyString => false
  end.

Lemma universal_newlines_fixed (s : string) :
  has_carriage_return s = false → universal_newlines s = s.
Proof.
  induction s as [|c s IH]; [done|]. cbn [has_carriage_return].
  intros [Hc Hs]%orb_false_elim. apply N.eqb_neq in Hc.
  specialize (IH Hs).
  assert (universal_newlines (String c s) = String c (universal_newlines s))
    as ->; [|by rewrite IH].
  destruct c as [[] [] [] [] [] [] [] []]; try reflexivity.
  by destruct Hc.
Qed.

(** X18. What [set] stores, [get] returns: after a [set] that does not
    raise, [get] on the same object returns the normalised value ([None]
    for [None], an empty or an all-blank value), and the file is absent
    exactly when that value is [None].  A new object that reads the file
    returns the normalised value with its line ends translated by the
    reading: the value itself when it has no carriage return. *)
Theorem set_get_round_trip (value : option string) (st st' : State) :
  set value st = (Ok (), st') →
  (get st').1 = Ok (_normalise_value value)
  ∧ (_normalise_value value = None ↔ file st' = None)
  ∧ match _normalise_value value with
    | None => (get (init (file st'))).1 = Ok None
    | Some v =>
        file st' = Some v
        ∧ (get (init (file st'))).1
          = Ok (_normalise_value (Some (universal_newlines v)))
        ∧ (has_carriage_return v = false →
           (get (init (file st'))).1 = Ok (Some v))
    end.
Proof.
  unfold set. destruct (_normalise_value value) as [v|] eqn:E.
  - destruct (is_ascii v) eqn:Hascii; [|done]. intros [= <-].
    pose proof (normalise_Some _ _ E) as (Hv & raw & -> & Hraw).
    unfold get, init, read_text. cbn [_value file]. rewrite Hv, Hascii.
    cbn [negb fst truthy].
    split; [done|]. split; [done|]. split; [done|]. split; [done|].
    intros Hcr. rewrite (universal_newlines_fixed v Hcr).
    by rewrite (normalise_fixed raw v E).
  - intros [= <-]. done.
Qed.

(** X19. [_normalise_value] returns [None] or a string that is not empty
    and neither starts nor ends with a blank, and such a string is left as
    it is: normalising twice is normalising once. *)
Theorem normalise_value_normal_form (value : option string) :
  match _normalise_value value with
  | Some v =>
      v ≠ EmptyString
      ∧ (∀ c, first_char v = Some c → isspace c = false)
      ∧ (∀ c, last_char v = Some c → isspace c = false)
  | None => True
  end
  ∧ _normalise_value (_normalise_value value) = _normalise_value value.
Proof.
  destruct (_normalise_value value) as [v|] eqn:E; [|done].
  pose proof (normalise_Some _ _ E) as (Hv & raw & -> & ->).
  split; [|by apply (normalise_fixed raw)].
  split; [by destruct (strip raw)|]. split.
  - intros c Hc. unfold strip in Hc. apply rstrip_first in Hc.
    by apply (lstrip_first raw).
  - intros c Hc. by apply (rstrip_last (lstrip raw)).
Qed.

(** X20. [get] keeps a value it has returned and keeps no absence: after a
    [get] that returned a value, a [get] returns the same value whatever
    has become of the file; after a [get] that returned [None], a [get]
    reads the file again, and returns what it reads, line ends translated,
    normalised. *)
Theorem get_caches_values_only (st st' : State) (result : option string) :
  get st = (Ok result, st') →
  match result with
  | Some v =>
      ∀ f, get {| file := f; _value := _value st' |}
           = (Ok (Some v), {| file := f; _value := _value st' |})
  | None =>
      ∀ content text, read_text content = Some text →
        (get {| file := Some content; _value := _value st' |}).1
        = Ok (_normalise_value (Some text))
  end.
Proof.
  unfold get. destruct (truthy (_value st)) eqn:Ht; cbn [negb].
  - intros [= <- <-]. destruct (_value st) as [v|] eqn:Hv; [|done].
    intros f. cbn [_value]. by rewrite Ht.
  - destruct (file st) as [content|].
    + destruct (read_text content) as [text|]; [|done]. intros [= <- <-].
      destruct (_normalise_value (Some text)) as [v|] eqn:E.
      * intros f. cbn [_value].
        by destruct (normalise_Some _ _ E) as (-> & _).
      * intros content' text' Hc. cbn [_value file truthy negb].
        by rewrite Hc.
    + intros [= <- <-]. intros content text Hc. cbn [_value file].
      by rewrite Ht, Hc.
Qed.

Lemma set_get_round_trip_witness :
  (get (set (Some "  4y3h7n ") (init None)).2).1 = Ok (Some "4y3h7n")
  ∧ (get (init (file (set (Some "  4y3h7n ") (init None)).2))).1
    = Ok (Some "4y3h7n").
Proof.
  destruct (set_get_round_trip (Some "  4y3h7n ") (init None)
              {| file := Some "4y3h7n"; _value := Some "4y3h7n" |} eq_refl)
    as (H1 & _ & _ & _ & H2).
  split; [exact H1|exact (H2 eq_refl)].
Defined.

(** A carriage return inside the value is stored as it is and read back as
    a line feed by a new object. *)
Example carriage_return_is_read_as_line_feed :
  let cr := String "013"%char EmptyString in
  let lf := String "010"%char EmptyString in
  let st' := (set (Some ("a" +:+ cr +:+ "b")) (init None)).2 in
  file st' = Some ("a" +:+ cr +:+ "b")
  ∧ (get st').1 = Ok (Some ("a" +:+ cr +:+ "b"))
  ∧ (get (init (file st'))).1 = Ok (Some ("a" +:+ lf +:+ "b")).
Proof. by vm_compute. Qed.

(** The file is rewritten behind the object's back: the object still
    answers with what it read first. *)
Lemma get_caches_values_only_witness :
  let st' := (get (init (Some "4y3h7n"))).2 in
  get {| file := Some "other"; _value := _value st' |}
  = (Ok (Some "4y3h7n"), {| file := Some "other"; _value := _value st' |}).
Proof.
  exact (get_caches_values_only (init (Some "4y3h7n"))
           {| file := Some "4y3h7n"; _value := Some "4y3h7n" |}
           (Some "4y3h7n") eq_refl (Some "other")).
Defined.

End FileBackedID.

(** ** Static IP address service: bulk operations and registrations *)

Module StaticIPAddressBulk.
Import Temporal StaticIPAddressService.

(** What a bulk method raises: an exception of the repository, or the
    [NotImplementedError] of the hooks of the service. *)
Inductive Failure : Type :=
| Raised (e : Exception)
| NotImplementedError (message : string).

Inductive BulkOutcome (A : Type) : Type :=
| Returned (a : A)
| Failed (f : Failure).
Arguments Returned {A} a.
Arguments Failed {A} f.

Section bulk.

Context {Resource Query Store : Type}.

(** [BaseRepository.update_many] and [BaseRepository.delete_many], as they
    come. *)
Variable repo_update_many :
  Query → Resource → Store → Outcome (list StaticIPAddress) * Store.
Variable repo_delete_many :
  Query → Store → Outcome (list StaticIPAddress) * Store.

(** [BaseService.update_many] and [BaseService.delete_many], over the hook
    of the service. *)
Definition base_update_many
    (post_update_many_hook :
       list StaticIPAddress → Store → BulkOutcome unit * Store)
    (query : Query) (resource : Resource) (st : Store)
  : BulkOutcome (list StaticIPAddress) * Store :=
  match repo_update_many query resource st with
  | (Raise e, st') => (Failed (Raised e), st')
  | (Return updated_resources, st') =>
      match post_update_many_hook updated_resources st' with
      | (Failed f, st'') => (Failed f, st'')
      | (Returned _, st'') => (Returned updated_resources, st'')
      end
  end.

Definition base_delete_many
    (post_delete_many_hook :
       list StaticIPAddress → Store → BulkOutcome unit * Store)
    (query : Query) (st : Store)
  : BulkOutcome (list StaticIPAddress) * Store :=
  match repo_delete_many query st with
  | (Raise e, st') => (Failed (Raised e), st')
  | (Return resources, st') =>
      match post_delete_many_hook resources st' with
      | (Failed f, st'') => (Failed f, st'')
      | (Returned _, st'') => (Returned resources, st'')
      end
  end.

(** [StaticIPAddressService.post_update_many_hook] and
    [post_delete_many_hook]. *)
Definition post_update_many_hook (resources : list StaticIPAddress)
    (st : Store) : BulkOutcome unit * Store :=
  (Failed (NotImplementedError "Not implemented yet."), st).

Definition post_delete_many_hook (resources : list StaticIPAddress)
    (st : Store) : BulkOutcome unit * Store :=
  (Failed (NotImplementedError "Not implemented yet."), st).

(** [StaticIPAddressService.update_many] and [delete_many] (inherited). *)
Definition update_many := base_update_many post_update_many_hook.
Definition delete_many := base_delete_many post_delete_many_hook.

(** X21. On the static IP address service [update_many] and [delete_many]
    never return: when the repository has made its bulk write they raise
    [NotImplementedError] from the hook, and the store is then the one the
    repository's write left; when the repository raises, its error is
    raised. *)
Theorem bulk_operations_write_then_raise (query : Query) (resource : Resource)
    (st : Store) :
  (∀ rs, (update_many query resource st).1 ≠ Returned rs)
  ∧ (∀ rs, (delete_many query st).1 ≠ Returned rs)
  ∧ (update_many query resource st).2 = (repo_update_many query resource st).2
  ∧ (delete_many query st).2 = (repo_delete_many query st).2
  ∧ (∀ rs, (repo_update_many query resource st).1 = Return rs →
       (update_many query resource st).1
       = Failed (NotImplementedError "Not implemented yet."))
  ∧ (∀ rs, (repo_delete_many query st).1 = Return rs →
       (delete_many query st).1
       = Failed (NotImplementedError "Not implemented yet.")).
Proof.
  unfold update_many, delete_many, base_update_many, base_delete_many,
    post_update_many_hook, post_delete_many_hook.
  destruct (repo_update_many query resource st) as [[us|eu] su];
    destruct (repo_delete_many query st) as [[ds|ed] sd]; cbn;
    repeat split; try done.
Qed.

End bulk.

Section registrations.

Context {Resource Query Table : Type}.
Variable etag : StaticIPAddress → string.
Variable staticipaddress_repository :
  @BaseService.Repository StaticIPAddress Resource Query Table.

(** X22. Through [update_by_id] and [delete_by_id] of the service, what is
    registered depends on the resource the repository returns, not on the
    one that was read: an update registers the id of the updated address
    unless that address is DISCOVERED, whatever the address was before; a
    delete registers the subnet of the deleted address unless it is
    DISCOVERED. *)
Theorem service_registers_on_returned_resource (id : Z) (payload : Resource)
    (etag_if_match : option string) (old new gone : StaticIPAddress)
    (t0 t1 t2 : Table) (ts : TemporalService)
    (tr : list (@BaseService.Event StaticIPAddress Resource Query)) :
  BaseService.repo_get_by_id staticipaddress_repository id t0
    = (Return (Some old), t1) →
  etag_if_match = None ∨ etag_if_match = Some (etag old) →
  let w := {| BaseService.store := {| table := t0; temporal_service := ts |};
              BaseService.trace := tr |} in
  (BaseService.repo_update_by_id staticipaddress_repository (sip_id old)
     payload t1 = (Return new, t2) →
   let '(r, w') :=
     update_by_id etag staticipaddress_repository id payload etag_if_match w in
   r = Return new
   ∧ registrations_of (BaseService.store w')
     = registrations ts ++ registers new (static_ip_param new))
  ∧ (BaseService.repo_delete_by_id staticipaddress_repository (sip_id old) t1
       = (Return (Some gone), t2) →
     let '(r, w') :=
       delete_by_id etag staticipaddress_repository id etag_if_match w in
     r = Return (Some gone)
     ∧ registrations_of (BaseService.store w')
       = registrations ts ++ registers gone (parent_subnet_param gone)).
Proof.
  intros Hget Hetag w.
  assert (BaseService.get_by_id (repository staticipaddress_repository) id w
          = (Return (Some old),
             BaseService.after_read w (BaseService.RepoGetById id)
               {| table := t1; temporal_service := ts |})) as Hrun.
  { apply BaseService.get_by_id_run. cbn. unfold on_table. cbn.
    by rewrite Hget. }
  split.
  - intros Hupd. unfold update_by_id, BaseService.update_by_id.
    rewrite (BaseService.bind_run _ _ _ _ _ Hrun).
    rewrite BaseService.update_resource_checked by done.
    unfold BaseService.update_checked, BaseService.bind, BaseService.call,
      BaseService.after_read, BaseService.ret.
    cbn [BaseService.store BaseService.trace repository hooks
         BaseService.repo_update_by_id BaseService.post_update_hook].
    unfold on_table. cbn [table temporal_service]. rewrite Hupd.
    unfold post_update_hook, registrations_of, registers.
    rewrite bool_decide_not_discovered.
    destruct (bool_decide (alloc_type new = DISCOVERED)); cbn;
      (split; [done|]); [by rewrite app_nil_r|done].
  - intros Hdel. unfold delete_by_id, BaseService.delete_by_id.
    rewrite (BaseService.bind_run _ _ _ _ _ Hrun).
    rewrite BaseService.delete_resource_checked by done.
    unfold BaseService.delete_checked, BaseService.bind, BaseService.call,
      BaseService.after_read, BaseService.ret.
    cbn [BaseService.store BaseService.trace repository hooks
         BaseService.repo_delete_by_id BaseService.pre_delete_hook
         BaseService.post_delete_hook].
    unfold on_table. cbn [table temporal_service]. rewrite Hdel.
    unfold post_delete_hook, registrations_of, registers.
    rewrite bool_decide_not_discovered.
    destruct (bool_decide (alloc_type gone = DISCOVERED)); cbn;
      (split; [done|]); [by rewrite app_nil_r|done].
Qed.

End registrations.

End StaticIPAddressBulk.

(** *** Registrations, on the in-memory repository *)

Module InMemoryRegistrations.
Import Temporal StaticIPAddressService InMemory.

Definition discovered_payload : Payload :=
  {| set_ip := None; set_alloc_type := Some DISCOVERED; set_subnet_id := None |}.

(** Address 1 is AUTO; the update that makes it DISCOVERED registers
    nothing. *)
Lemma service_registers_on_returned_resource_witness :
  registrations_of
    (BaseService.store
       (service_update_by_id 1 discovered_payload None (start two_rows)).2)
  = [].
Proof.
  generalize
    (proj1 (StaticIPAddressBulk.service_registers_on_returned_resource
              etag staticipaddress_repository 1 discovered_payload None
              row1 (apply_payload discovered_payload row1) row1
              two_rows two_rows
              [apply_payload discovered_payload row1; row2]
              new_unit_of_work [] eq_refl (or_introl eq_refl)) eq_refl).
  vm_compute. intros [_ H]. exact H.
Defined.

(** C4, as stated, fails on an update that changes the alloc_type.  Address
    1 is not DISCOVERED, and the update of it that makes it DISCOVERED
    registers nothing; address 2 is DISCOVERED, and the update of it that
    makes it AUTO registers a ConfigureDHCP call. *)
Lemma update_registers_by_new_alloc_type :
  alloc_type row1 ≠ DISCOVERED
  ∧ registrations_of
      (BaseService.store
         (service_update_by_id 1 discovered_payload None (start two_rows)).2)
    = []
  ∧ alloc_type row2 = DISCOVERED
  ∧ registrations_of
      (BaseService.store
         (service_update_by_id 2
            {| set_ip := None; set_alloc_type := Some AUTO;
               set_subnet_id := None |} None (start two_rows)).2)
    = [mkRegistration CONFIGURE_DHCP_WORKFLOW_NAME
         {| subnet_ids := []; static_ip_addr_ids := [2]; ip_range_ids := [] |}
         false].
Proof. by vm_compute. Qed.

(** Address 2 is DISCOVERED; the update that makes it AUTO registers its
    id. *)
Example update_discovered_to_auto_registers :
  registrations_of
    (BaseService.store
       (service_update_by_id 2
          {| set_ip := None; set_alloc_type := Some AUTO;
             set_subnet_id := None |} None (start two_rows)).2)
  = [mkRegistration CONFIGURE_DHCP_WORKFLOW_NAME
       {| subnet_ids := []; static_ip_addr_ids := [2]; ip_range_ids := [] |}
       false].
Proof. by vm_compute. Qed.

End InMemoryRegistrations.

(** ** Deprecation notices (maasserver/deprecations.py) *)

Module Deprecations.

(** [Deprecation]. *)
Record Deprecation : Type := mkDeprecation {
  id : string;
  since : string;
  description : string;
  link_text : string
}.

(** [DEPRECATION_URL.format(id=self.id)]. *)
Definition url (d : Deprecation) : string :=
  "https://maas.io/deprecations/" +:+ id d.

(** [Deprecation.message]. *)
Definition message (d : Deprecation) : string :=
  "Deprecation " +:+ id d +:+ " (" +:+ url d +:+ "): " +:+ description d.

(** [DEPRECATIONS["NO_ALL_MODE"]]. *)
Definition NO_ALL_MODE : Deprecation :=
  {| id := "MD1";
     since := "2.8";
     description :=
       "The setup for this MAAS is deprecated and not suitable for production environments, as the database is running inside the snap.";
     link_text := "How to migrate the database out of the snap" |}.

(** [get_deprecations], over what [snappy.running_in_snap()] and
    [snappy.get_snap_mode()] return. *)
Definition get_deprecations (running_in_snap : bool) (snap_mode : string)
  : list Deprecation :=
  if running_in_snap && bool_decide (snap_mode = "all")
  then [NO_ALL_MODE] else [].

(** A row of the [Notification] model, with the fields the module sets;
    [ident] may be null. *)
Record Notification : Type := mkNotification {
  ident : option string;
  category : string;
  notification_message : string;
  dismissable : bool;
  users : bool;
  admins : bool
}.

#[global] Instance Notification_eq_dec : EqDecision Notification.
Proof. solve_decision. Defined.

Inductive Kind : Type := for_users | for_admins.

Definition kind_name (kind : Kind) : string :=
  match kind with for_users => "users" | for_admins => "admins" end.

(** [f"deprecation_{deprecation.id}_{kind}"]. *)
Definition dep_ident (deprecation : Deprecation) (kind : Kind) : string :=
  "deprecation_" +:+ id deprecation +:+ "_" +:+ kind_name kind.

(** The notification the loop saves. *)
Definition notification_for (deprecation : Deprecation) (kind : Kind)
  : Notification :=
  let message := description deprecation in
  let message :=
    match kind with
    | for_users => message +:+ "<br>Please contact your MAAS administrator."
    | for_admins => message
    end in
  let message :=
    message +:+ "<br><a class='p-link--external' href='" +:+ url deprecation
      +:+ "'>" +:+ link_text deprecation +:+ "...</a>" in
  {| ident := Some (dep_ident deprecation kind);
     category := "warning";
     notification_message := message;
     dismissable := false;
     users := match kind with for_users => true | for_admins => false end;
     admins := match kind with for_admins => true | for_users => false end |}.

(** [ident__startswith="deprecation_"]. *)
Definition is_deprecation_ident (i : string) : bool :=
  String.prefix "deprecation_" i.

Definition deprecation_idents (table : list Notification) : list string :=
  remove_dups
    (omap (λ n, i ← ident n; if is_deprecation_ident i then Some i else None)
          table).

(** One turn of the inner loop, on the set of idents still unaccounted for
    and the table. *)
Definition sync_kind (deprecation : Deprecation)
    (state : list string * list Notification) (kind : Kind)
  : list string * list Notification :=
  let '(notifications, table) := state in
  if bool_decide (dep_ident deprecation kind ∈ notifications)
  then (filter (λ i, i ≠ dep_ident deprecation kind) notifications, table)
  else (notifications, table ++ [notification_for deprecation kind]).

(** [ident__in=notifications]: a null ident is in no set. *)
Definition ident_in (notifications : list string) (n : Notification) : bool :=
  match ident n with
  | Some i => bool_decide (i ∈ notifications)
  | None => false
  end.

(** [sync_deprecation_notifications], for the active deprecations. *)
Definition sync_deprecation_notifications (active : list Deprecation)
    (table : list Notification) : list Notification :=
  let notifications := deprecation_idents table in
  let '(notifications, table) :=
    foldl (λ state deprecation,
             foldl (sync_kind deprecation) state [for_users; for_admins])
          (notifications, table) active in
  match notifications with
  | [] => table
  | _ :: _ => filter (λ n, ident_in notifications n = false) table
  end.

(** The idents the active deprecations call for. *)
Definition wanted (active : list Deprecation) : list string :=
  deprecation ← active;
  kind ← [for_users; for_admins];
  [dep_ident deprecation kind].

(** Whether a row is a deprecation notification. *)
Definition is_deprecation (n : Notification) : bool :=
  match ident n with
  | Some i => is_deprecation_ident i
  | None => false
  end.

(** *** Facts about the synchronisation *)

Definition step (state : list string * list Notification)
    (p : Deprecation * Kind) : list string * list Notification :=
  sync_kind (p.1) state (p.2).

Definition pairs (active : list Deprecation) : list (Deprecation * Kind) :=
  deprecation ← active; kind ← [for_users; for_admins]; [(deprecation, kind)].

Definition pair_ident (p : Deprecation * Kind) : string := dep_ident (p.1) (p.2).

Lemma foldl_pairs (active : list Deprecation)
    (state : list string * list Notification) :
  foldl (λ state deprecation,
           foldl (sync_kind deprecation) state [for_users; for_admins])
        state active
  = foldl step state (pairs active).
Proof.
  revert state. induction active as [|d active IH]; intros state; [done|].
  unfold pairs. rewrite bind_cons, foldl_app. cbn [foldl]. by rewrite IH.
Qed.

Lemma wanted_pairs (active : list Deprecation) :
  wanted active = pair_ident <$> pairs active.
Proof.
  induction active as [|d active IH]; [done|].
  unfold wanted, pairs in *. rewrite !bind_cons, fmap_app.
  by apply (f_equal2 app).
Qed.

Lemma prefix_append (s t : string) : String.prefix s (s +:+ t) = true.
Proof.
  induction s as [|a s IH]; [by destruct t|].
  change (String a s +:+ t) with (String a (s +:+ t)).
  cbn [String.prefix]. destruct (Ascii.ascii_dec a a); [exact IH|done].
Qed.

Lemma dep_ident_is_deprecation (d : Deprecation) (k : Kind) :
  is_deprecation_ident (dep_ident d k) = true.
Proof. apply prefix_append. Qed.

Lemma elem_of_deprecation_idents (table : list Notification) (i : string) :
  i ∈ deprecation_idents table ↔
  is_deprecation_ident i = true ∧ ∃ n, n ∈ table ∧ ident n = Some i.
Proof.
  unfold deprecation_idents. rewrite elem_of_remove_dups, list_elem_of_omap.
  split.
  - intros (n & Hn & Hi). destruct (ident n) as [j|] eqn:Hj; [|done].
    cbn in Hi. destruct (is_deprecation_ident j) eqn:Hd; [|done].
    simplify_eq. eauto.
  - intros (Hd & n & Hn & Hi). exists n. split; [done|].
    rewrite Hi. cbn. by rewrite Hd.
Qed.

(** What holds of the idents unaccounted for and of the table once the
    idents [done_] have been gone through, from the table [T]. *)
Definition Inv (T : list Notification) (done_ : list string)
    (state : list string * list Notification) : Prop :=
  (∀ i, i ∈ state.1 ↔ i ∈ deprecation_idents T ∧ i ∉ done_)
  ∧ (∃ extra, state.2 = T ++ extra
              ∧ ∀ n, n ∈ extra → ∃ i, i ∈ done_ ∧ ident n = Some i)
  ∧ (∀ i, i ∈ done_ → ∃ n, n ∈ state.2 ∧ ident n = Some i).

Lemma Inv_init (T : list Notification) : Inv T [] (deprecation_idents T, T).
Proof.
  split; [|split].
  - intros i. cbn. set_solver.
  - exists []. rewrite app_nil_r. split; [done|]. intros n Hn.
    by apply elem_of_nil in Hn.
  - intros i Hi. by apply elem_of_nil in Hi.
Qed.

Lemma Inv_step (T : list Notification) (done_ : list string)
    (state : list string * list Notification) (p : Deprecation * Kind) :
  Inv T done_ state → Inv T (pair_ident p :: done_) (step state p).
Proof.
  destruct state as [ns tbl]. destruct p as [d k].
  intros (Hns & (extra & Htbl & Hextra) & Hdone). cbn [fst snd] in *.
  subst tbl. unfold step, sync_kind, pair_ident, Inv. cbn [fst snd] in *.
  case_bool_decide as Hin; cbn [fst snd].
  - split; [|split].
    + intros i. rewrite list_elem_of_filter, Hns, not_elem_of_cons. tauto.
    + exists extra. split; [done|]. intros n Hn.
      destruct (Hextra n Hn) as (i & Hi & Hid). exists i. split; [by right|done].
    + intros i Hi. apply elem_of_cons in Hi as [->|Hi]; [|by apply Hdone].
      apply Hns in Hin as [Hin _].
      apply elem_of_deprecation_idents in Hin as (_ & n & Hn & Hid).
      exists n. split; [|done]. apply elem_of_app. by left.
  - split; [|split].
    + intros i. rewrite Hns, not_elem_of_cons. split; [|tauto].
      intros [HS HD]. split; [done|]. split; [|done].
      intros ->. apply Hin. by apply Hns.
    + exists (extra ++ [notification_for d k]). split; [by rewrite app_assoc|].
      intros n Hn. apply elem_of_app in Hn as [Hn|Hn].
      * destruct (Hextra n Hn) as (i & Hi & Hid). exists i.
        split; [by right|done].
      * apply list_elem_of_singleton in Hn as ->. exists (dep_ident d k).
        split; [by left|done].
    + intros i Hi. apply elem_of_cons in Hi as [->|Hi].
      * exists (notification_for d k). split; [|done].
        apply elem_of_app. right. by apply list_elem_of_singleton.
      * destruct (Hdone i Hi) as (n & Hn & Hid). exists n. split; [|done].
        apply elem_of_app. by left.
Qed.

Lemma Inv_foldl (T : list Notification) (ps : list (Deprecation * Kind))
    (done_ : list string) (state : list string * list Notification) :
  Inv T done_ state →
  ∃ done', (∀ i, i ∈ done' ↔ i ∈ pair_ident <$> ps ∨ i ∈ done_)
           ∧ Inv T done' (foldl step state ps).
Proof.
  revert done_ state. induction ps as [|p ps IH]; intros done_ state HI.
  - exists done_. split; [|done]. intros i. rewrite fmap_nil. set_solver.
  - destruct (IH _ _ (Inv_step T done_ state p HI)) as (done' & Hd & HI').
    exists done'. split; [|done]. intros i. rewrite Hd, fmap_cons. set_solver.
Qed.

Lemma ident_in_nil (n : Notification) : ident_in [] n = false.
Proof.
  unfold ident_in. destruct (ident n); [|done].
  apply bool_decide_eq_false_2, not_elem_of_nil.
Qed.

(** The final delete, whether the set is empty or not. *)
Lemma sync_closed_form (active : list Deprecation) (table : list Notification) :
  sync_deprecation_notifications active table
  = let state := foldl step (deprecation_idents table, table) (pairs active) in
    filter (λ n, ident_in (state.1) n = false) (state.2).
Proof.
  unfold sync_deprecation_notifications. rewrite foldl_pairs.
  destruct (foldl step _ _) as [[|i ns] tbl]; cbn [fst snd]; [|done].
  symmetry. apply Vlans.filter_Forall, Forall_forall.
  intros n _. apply ident_in_nil.
Qed.

(** When every ident to go through is still unaccounted for, going through
    them only strikes them off: nothing is created. *)
Lemma foldl_step_present (ps : list (Deprecation * Kind)) (ns : list string)
    (tbl : list Notification) :
  NoDup (pair_ident <$> ps) →
  (∀ i, i ∈ pair_ident <$> ps → i ∈ ns) →
  foldl step (ns, tbl) ps
  = (filter (λ i, i ∉ pair_ident <$> ps) ns, tbl).
Proof.
  revert ns. induction ps as [|p ps IH]; intros ns Hnd Hall.
  - cbn. f_equal. symmetry. apply Vlans.filter_Forall, Forall_forall.
    intros i _. apply not_elem_of_nil.
  - rewrite fmap_cons in Hnd, Hall. apply NoDup_cons in Hnd as [Hp Hnd].
    cbn [foldl]. unfold step at 2, sync_kind.
    rewrite bool_decide_eq_true_2 by (apply Hall; left).
    rewrite IH; [|done|].
    + f_equal. rewrite list_filter_filter. apply list_filter_iff.
      intros i. rewrite fmap_cons, not_elem_of_cons.
      fold (pair_ident p). tauto.
    + intros i Hi. apply list_elem_of_filter. split; [|apply Hall; by right].
      intros ->. by apply Hp.
Qed.

Lemma filter_ext_in {A} (P Q : A → Prop) `{∀ x, Decision (P x)}
    `{∀ x, Decision (Q x)} (l : list A) :
  (∀ x, x ∈ l → P x ↔ Q x) → filter P l = filter Q l.
Proof.
  induction l as [|x l IH]; intros Hext; [done|].
  rewrite !filter_cons.
  destruct (decide (P x)) as [HP|HP], (decide (Q x)) as [HQ|HQ].
  - f_equal. apply IH. intros y Hy. apply Hext. by right.
  - destruct HQ. apply (Hext x); [left|done].
  - destruct HP. apply (Hext x); [left|done].
  - apply IH. intros y Hy. apply Hext. by right.
Qed.

Lemma sync_result (active : list Deprecation) (table : list Notification) :
  ∃ ns extra,
    sync_deprecation_notifications active table
    = filter (λ n, ident_in ns n = false) (table ++ extra)
    ∧ (∀ i, i ∈ ns ↔ i ∈ deprecation_idents table ∧ i ∉ wanted active)
    ∧ (∀ n, n ∈ extra → ∃ i, i ∈ wanted active ∧ ident n = Some i)
    ∧ (∀ i, i ∈ wanted active → ∃ n, n ∈ table ++ extra ∧ ident n = Some i).
Proof.
  rewrite sync_closed_form. cbn zeta.
  destruct (Inv_foldl table (pairs active) [] _ (Inv_init table))
    as (done_ & Hdone & HI).
  assert (∀ i, i ∈ done_ ↔ i ∈ wanted active) as Hw.
  { intros i. rewrite Hdone, wanted_pairs. set_solver. }
  destruct (foldl step _ _) as [ns tbl].
  destruct HI as (Hns & (extra & Htbl & Hextra) & Hrows). cbn [fst snd] in *.
  subst tbl. exists ns, extra. split; [done|]. split; [|split].
  - intros i. rewrite Hns, Hw. done.
  - intros n Hn. destruct (Hextra n Hn) as (i & Hi & Hid).
    exists i. split; [by apply Hw|done].
  - intros i Hi. apply Hrows. by apply Hw.
Qed.

Lemma ident_in_false (ns : list string) (n : Notification) :
  ident_in ns n = false ↔ ∀ i, ident n = Some i → i ∉ ns.
Proof.
  unfold ident_in. destruct (ident n) as [j|]; [|done].
  rewrite bool_decide_eq_false. split; [by intros ? ? [= <-]|eauto].
Qed.

Lemma wanted_is_deprecation (active : list Deprecation) (i : string) :
  i ∈ wanted active → is_deprecation_ident i = true.
Proof.
  rewrite wanted_pairs, list_elem_of_fmap. intros ([d k] & -> & _).
  apply dep_ident_is_deprecation.
Qed.

Lemma sync_only_wanted (active : list Deprecation) (table : list Notification)
    (n : Notification) (i : string) :
  n ∈ sync_deprecation_notifications active table →
  ident n = Some i → is_deprecation_ident i = true → i ∈ wanted active.
Proof.
  destruct (sync_result active table) as (ns & extra & -> & Hns & Hextra & _).
  intros [Hkeep Hn]%list_elem_of_filter Hid Hdep.
  pose proof (proj1 (ident_in_false ns n) Hkeep i Hid) as Hnot.
  apply elem_of_app in Hn as [Hn|Hn].
  - destruct (decide (i ∈ wanted active)) as [|Hnw]; [done|].
    destruct Hnot. apply Hns. split; [|done].
    apply elem_of_deprecation_idents. eauto.
  - destruct (Hextra n Hn) as (j & Hj & Hid'). congruence.
Qed.

Lemma sync_all_wanted (active : list Deprecation) (table : list Notification)
    (i : string) :
  i ∈ wanted active →
  ∃ n, n ∈ sync_deprecation_notifications active table ∧ ident n = Some i.
Proof.
  destruct (sync_result active table) as (ns & extra & -> & Hns & _ & Hrows).
  intros Hi. destruct (Hrows i Hi) as (n & Hn & Hid). exists n.
  split; [|done]. apply list_elem_of_filter. split; [|done].
  apply ident_in_false. intros j Hj Hin. apply Hns in Hin as [_ Hnot].
  congruence.
Qed.

(** X23. After [sync_deprecation_notifications] the deprecation
    notifications of the table are those of the active deprecations, one
    ident for users and one for admins each: every row whose ident starts
    with [deprecation_] is one of them, each of them has a row, and the
    rows that are not deprecation notifications are as they were, in their
    order.  When the idents called for are distinct, a second run changes
    nothing. *)
Theorem sync_deprecation_notifications_exact (active : list Deprecation)
    (table : list Notification) :
  let result := sync_deprecation_notifications active table in
  (∀ n i, n ∈ result → ident n = Some i → is_deprecation_ident i = true →
          i ∈ wanted active)
  ∧ (∀ i, i ∈ wanted active → ∃ n, n ∈ result ∧ ident n = Some i)
  ∧ filter (λ n, is_deprecation n = false) result
    = filter (λ n, is_deprecation n = false) table
  ∧ (NoDup (wanted active) →
     sync_deprecation_notifications active result = result).
Proof.
  intros result. split; [|split; [|split]].
  - intros n i. apply sync_only_wanted.
  - intros i. apply sync_all_wanted.
  - unfold result.
    destruct (sync_result active table) as (ns & extra & -> & Hns & Hextra & _).
    rewrite list_filter_filter, filter_app.
    replace (filter _ extra) with (@nil Notification).
    + rewrite app_nil_r. apply filter_ext_in. intros n Hn.
      split; [tauto|]. intros Hnd. split; [done|].
      apply ident_in_false. intros i Hid Hin.
      apply Hns in Hin as [Hin _].
      apply elem_of_deprecation_idents in Hin as [Hdep _].
      unfold is_deprecation in Hnd. rewrite Hid in Hnd. congruence.
    + symmetry. apply SubnetsGuard.filter_nil_iff. intros n Hn [Hnd _].
      destruct (Hextra n Hn) as (i & Hi & Hid).
      apply wanted_is_deprecation in Hi.
      unfold is_deprecation in Hnd. rewrite Hid in Hnd. congruence.
  - intros Hnd. rewrite sync_closed_form. cbn zeta.
    rewrite wanted_pairs in Hnd.
    rewrite foldl_step_present; [|done|].
    + cbn [fst snd].
      replace (filter _ (deprecation_idents result)) with (@nil string).
      * apply Vlans.filter_Forall, Forall_forall. intros n _.
        apply ident_in_nil.
      * symmetry. apply SubnetsGuard.filter_nil_iff. intros i Hi Hnot.
        apply elem_of_deprecation_idents in Hi as (Hdep & n & Hn & Hid).
        apply Hnot. rewrite <- wanted_pairs.
        by apply (sync_only_wanted active table n i).
    + intros i Hi. rewrite <- wanted_pairs in Hi.
      apply elem_of_deprecation_idents.
      split; [by eapply wanted_is_deprecation|].
      by apply sync_all_wanted.
Qed.

(** A table with a stale deprecation notification and an unrelated one; the
    MAAS runs in a snap in "all" mode. *)
Definition stale_table : list Notification :=
  [ mkNotification (Some "deprecation_MD0_users") "warning" "old" false true false;
    mkNotification (Some "release") "info" "new release" true true true ].

Lemma sync_deprecation_notifications_exact_witness :
  let result :=
    sync_deprecation_notifications (get_deprecations true "all") stale_table in
  ident <$> result
  = [Some "release"; Some "deprecation_MD1_users"; Some "deprecation_MD1_admins"]
  ∧ sync_deprecation_notifications (get_deprecations true "all") result = result.
Proof.
  split; [reflexivity|].
  apply (sync_deprecation_notifications_exact (get_deprecations true "all")
           stale_table).
  apply (bool_decide_unpack (NoDup (wanted (get_deprecations true "all")))).
  vm_compute. exact I.
Defined.

End Deprecations.
